(** * A shallow embedding of [src/blockchain.js]

    The [Blockchain] class of the star registry keeps an array of blocks and
    a height counter.  Every method returns a promise; here a method is a
    function from the ledger (and the clock readings it makes) to the way its
    promise settles and the ledger it leaves behind.

    JavaScript numbers are modelled by [Z]: heights and clock readings are
    integers far below 2^53, where double arithmetic is exact, and the only
    comparison made on a parsed number ([>= 300]) gives the same answer on
    the exact integer as on its nearest double.  [NaN] is [None].
    Strings are sequences of code units below 256. *)

From Stdlib Require Import ZArith NArith List String Ascii Bool Lia.
From Stdlib Require Import DecimalString DecimalPos DecimalFacts.
Import ListNotations.

Open Scope string_scope.
Open Scope list_scope.
Open Scope Z_scope.

(** ** Strings and numbers of the host language *)

Module JS.

(** [Number.prototype.toString] on an integer: plain decimal digits, with a
    leading minus sign for a negative one. *)
Definition Number_toString (n : Z) : string :=
  NilEmpty.string_of_int (Z.to_int n).

(** [s.slice(0, -k)]: the string without its last [k] code units (empty when
    it has no more than [k]). *)
Definition slice_0_neg (k : nat) (s : string) : string :=
  substring 0 (String.length s - k) s.

(** [s.split(sep)] for a one-character separator: the pieces between the
    occurrences of [sep]; always at least one piece. *)
Fixpoint split (sep : ascii) (s : string) : list string :=
  match s with
  | EmptyString => [EmptyString]
  | String c s' =>
      if Ascii.eqb c sep then EmptyString :: split sep s'
      else match split sep s' with
           | piece :: pieces => String c piece :: pieces
           | [] => [String c EmptyString]
           end
  end.

(** The white space that [parseInt] skips, among the code units below 256:
    TAB, LF, VT, FF, CR, space and the no-break space. *)
Definition isWhiteSpace (c : ascii) : bool :=
  let n := nat_of_ascii c in
  ((9 <=? n)%nat && (n <=? 13)%nat) || (n =? 32)%nat || (n =? 160)%nat.

Fixpoint trimStart (s : string) : string :=
  match s with
  | EmptyString => EmptyString
  | String c s' => if isWhiteSpace c then trimStart s' else s
  end.

(** The value of a digit [0-9], [a-z] or [A-Z]. *)
Definition digitValue (c : ascii) : option Z :=
  let n := Z.of_nat (nat_of_ascii c) in
  if (48 <=? n) && (n <=? 57) then Some (n - 48)
  else if (97 <=? n) && (n <=? 122) then Some (n - 87)
  else if (65 <=? n) && (n <=? 90) then Some (n - 55)
  else None.

Definition radixDigit (R : Z) (c : ascii) : option Z :=
  match digitValue c with
  | Some d => if d <? R then Some d else None
  | None => None
  end.

(** The longest prefix of radix-[R] digits, read left to right; [acc] is the
    value read so far, [None] while no digit has been read. *)
Fixpoint parseDigits (R : Z) (s : string) (acc : option Z) : option Z :=
  match s with
  | EmptyString => acc
  | String c s' =>
      match radixDigit R c with
      | Some d =>
          parseDigits R s'
            (Some (match acc with Some a => a * R + d | None => d end))
      | None => acc
      end
  end.

(** [parseInt(string)] without a radix: skip leading white space, read a
    sign, read a [0x] or [0X] prefix (radix 16, otherwise 10), then the
    longest prefix of digits.  [None] is [NaN]. *)
Definition parseInt (input : string) : option Z :=
  let trimmed := trimStart input in
  let '(sign, unsigned) :=
    match trimmed with
    | String "-" rest => (-1, rest)
    | String "+" rest => (1, rest)
    | _ => (1, trimmed)
    end in
  let '(R, digits) :=
    match unsigned with
    | String "0" (String "x" rest) => (16, rest)
    | String "0" (String "X" rest) => (16, rest)
    | _ => (10, unsigned)
    end in
  match parseDigits R digits None with
  | Some mathInt => Some (sign * mathInt)
  | None => None
  end.

(** [parseInt] applied to an array element that may be missing:
    [undefined] is first converted to the string ["undefined"]. *)
Definition parseInt_element (v : option string) : option Z :=
  parseInt (match v with Some s => s | None => "undefined" end).

(** [new Date().getTime().toString().slice(0, -3)] at clock reading [now]
    (milliseconds since the epoch). *)
Definition timeString (now : Z) : string :=
  slice_0_neg 3 (Number_toString now).

(** The character of the decimal digit [r]. *)
Definition digitChar (r : N) : ascii := ascii_of_N (48 + r).

Definition isDecimalDigit (c : ascii) : bool :=
  match radixDigit 10 c with Some _ => true | None => false end.

Fixpoint allDecimal (s : string) : bool :=
  match s with
  | EmptyString => true
  | String c s' => isDecimalDigit c && allDecimal s'
  end.

End JS.

(** ** Blocks *)

(** A star object: its own properties in insertion order ([{}] is the
    empty list). *)
Definition Star : Type := list (string * string).

(** The argument [data] of [new BlockClass.Block({data})]: the string of the
    genesis block or the object [{address, message, star}] of a star. *)
Inductive Data : Type :=
| DataString (s : string)
| DataStar (address message : string) (star : Star).

Module Block.

(** The fields [_addBlock] reads and writes.  [hash] and
    [previousBlockHash] are [None] until they are assigned. *)
Record t : Type := mk
  { hash : option string;
    height : Z;
    body : string;
    time : string;
    previousBlockHash : option string }.

Definition set_height (v : Z) (b : t) : t :=
  mk (hash b) v (body b) (time b) (previousBlockHash b).

Definition set_time (v : string) (b : t) : t :=
  mk (hash b) (height b) (body b) v (previousBlockHash b).

Definition set_previousBlockHash (v : option string) (b : t) : t :=
  mk (hash b) (height b) (body b) (time b) v.

Definition set_hash (v : option string) (b : t) : t :=
  mk v (height b) (body b) (time b) (previousBlockHash b).

End Block.

(** What [bitcoinMessage.verify] does: it returns a boolean or throws an
    error with a message. *)
Inductive VerifyOutcome : Type :=
| Returns (valid : bool)
| Throws (e_message : string).

(** The collaborators outside [blockchain.js]: the digest of [crypto-js],
    the serialization of a block by [JSON.stringify], the payload codec of
    the block class and the signature check of [bitcoinjs-message]. *)
Class Collaborators : Type :=
  { SHA256 : string -> string;
    JSON_stringify : Block.t -> string;
    encode : Data -> string;
    decode : string -> string + Data;
    bitcoinMessage_verify : string -> string -> string -> VerifyOutcome }.

Definition option_string_eqb (a b : option string) : bool :=
  match a, b with
  | Some x, Some y => String.eqb x y
  | None, None => true
  | _, _ => false
  end.

(** ** Values and promises *)

(** An entry [{message, block}] of the error log of [validateChain]. *)
Record Violation : Type := mkViolation
  { message : string;
    block : Block.t }.

(** An entry [{owner, star}] of [getStarsByWalletAddress]; a property read
    from a payload that lacks it is [None] ([undefined]). *)
Record StarEntry : Type := mkStarEntry
  { owner : option string;
    star : option Star }.

(** The values the methods resolve or reject with. *)
Inductive Value : Type :=
| VBlock (b : Block.t)
| VString (s : string)
| VNumber (n : Z)
| VErrorLog (errorLog : list Violation)
| VStars (blocks : list StarEntry)
| VTypeError.

(** How a promise ends: resolved, rejected, or never settled (an exception
    inside an [async] executor is lost and neither callback is called). *)
Inductive Promise : Type :=
| Resolved (v : Value)
| Rejected (v : Value)
| Pending.

(** ** The ledger *)

(** The two fields of the class: [this.chain] and [this.height]. *)
Record Blockchain : Type := mkBlockchain
  { chain : list Block.t;
    height : Z }.

(** [Array.prototype.push] and [pop] on the chain; [pop] leaves an empty
    array empty. *)
Definition push (bs : list Block.t) (b : Block.t) : list Block.t := bs ++ [b].

Definition pop (bs : list Block.t) : list Block.t := removelast bs.

(** [self.chain[i]] for an integer [i]: [None] ([undefined]) outside the
    array. *)
Definition at_index (bs : list Block.t) (i : Z) : option Block.t :=
  if i <? 0 then None else nth_error bs (Z.to_nat i).

Section Ledger.

Context {ext : Collaborators}.

(** Modelled from the spec: the constructor of [block.js], which is not
    among the sources.  A draft block carries only the encoded payload; its
    hash and previous hash are not assigned, and its height and time are
    overwritten by the append before they are read. *)
Definition Block_new (data : Data) : Block.t :=
  Block.mk None 0 (encode data) EmptyString None.

(** Modelled from the spec: [validate] of [block.js], which is not among the
    sources.  The block recomputes its digest from its current fields, the
    hash field excluded, and compares it to its stored hash. *)
Definition validate (b : Block.t) : bool :=
  option_string_eqb (Block.hash b)
    (Some (SHA256 (JSON_stringify (Block.set_hash None b)))).

(** Modelled from the spec: [getBData] of [block.js], which is not among the
    sources.  It decodes the payload with the codec; [inl] is the message of
    the error it rejects with. *)
Definition getBData (b : Block.t) : string + Data :=
  decode (Block.body b).

(** [_getLatestBlock] (lines 98-100): [this.chain[this.chain.length - 1]]. *)
Definition _getLatestBlock (self : Blockchain) : option Block.t :=
  at_index (chain self) (Z.of_nat (List.length (chain self)) - 1).

(** The two entries that [validateChain] pushes (lines 239 and 242); the
    template puts the decimal print of [b.height] in the message. *)
Definition brokenAt (b : Block.t) : Violation :=
  mkViolation
    ("The chain is broken at this height: " ++ JS.Number_toString (Block.height b))
    b.

Definition invalidAt (b : Block.t) : Violation :=
  mkViolation
    ("The block is not valid at height: " ++ JS.Number_toString (Block.height b))
    b.

(** The callback of [forEach] in [validateChain]: the entries it pushes on
    the error log for block [b], or [None] when reading [prevB.hash] throws
    because there is no block at [b.height - 1]. *)
Definition checkBlock (self : Blockchain) (b : Block.t) : option (list Violation) :=
  let link :=
    if 0 <? Block.height b then
      match at_index (chain self) (Block.height b - 1) with
      | Some prevB =>
          if option_string_eqb (Block.previousBlockHash b) (Block.hash prevB)
          then Some [] else Some [brokenAt b]
      | None => None
      end
    else Some [] in
  match link with
  | Some pushed =>
      Some (pushed ++ (if validate b then [] else [invalidAt b]))
  | None => None
  end.

(** [self.chain.forEach] with the error log it grows; a throw in the
    callback ends the loop. *)
Fixpoint forEach (self : Blockchain) (bs : list Block.t) (errorLog : list Violation)
  : option (list Violation) :=
  match bs with
  | [] => Some errorLog
  | b :: bs' =>
      match checkBlock self b with
      | Some pushed => forEach self bs' (errorLog ++ pushed)
      | None => None
      end
  end.

Definition chainIsValid : string := "The chain is valid, no error occurred".

(** [validateChain] (lines 230-252): the error log when it has entries,
    the validity message otherwise (the second [resolve] of a settled
    promise does nothing); the promise never settles when the loop throws. *)
Definition validateChain (self : Blockchain) : Promise :=
  match forEach self (chain self) [] with
  | Some errorLog =>
      if (0 <? List.length errorLog)%nat then Resolved (VErrorLog errorLog)
      else Resolved (VString chainIsValid)
  | None => Pending
  end.

(** The assignments of [_addBlock] before the push: height, time, previous
    hash when the ledger has a height, then the hash over the block as it
    stands.  [None] when [_getLatestBlock()] is [undefined] and reading its
    hash throws. *)
Definition assignFields (self : Blockchain) (now : Z) (block : Block.t) : option Block.t :=
  let block1 := Block.set_height (height self + 1) block in
  let block2 := Block.set_time (JS.timeString now) block1 in
  let linked :=
    if 0 <=? height self then
      match _getLatestBlock self with
      | Some latest => Some (Block.set_previousBlockHash (Block.hash latest) block2)
      | None => None
      end
    else Some block2 in
  match linked with
  | Some block3 =>
      Some (Block.set_hash (Some (SHA256 (JSON_stringify block3))) block3)
  | None => None
  end.

(** The ledger after [self.chain.push(block); self.height++]. *)
Definition commit (self : Blockchain) (block : Block.t) : Blockchain :=
  mkBlockchain (push (chain self) block) (height self + 1).

(** The ledger after [self.chain.pop(); self.height--]. *)
Definition rollback (self : Blockchain) : Blockchain :=
  mkBlockchain (pop (chain self)) (height self - 1).

(** [Array.isArray(errorLog) && errorLog.length > 0]. *)
Definition isNonEmptyArray (v : Value) : bool :=
  match v with
  | VErrorLog errorLog => (0 <? List.length errorLog)%nat
  | VStars blocks => (0 <? List.length blocks)%nat
  | _ => false
  end.

(** [_addBlock] (lines 64-91) at clock reading [now]: how its promise ends
    and the ledger it leaves.  A throw before the push is caught and
    rejected; a validation that never settles leaves the append waiting with
    the block pushed.  [block] is an object that the chain does not hold, as
    both callers give it (each makes a new block): the writes of lines 68-73
    then touch no committed block.  The append given an object of the chain
    is [_addBlock_stored]. *)
Definition _addBlock (self : Blockchain) (now : Z) (block : Block.t)
  : Promise * Blockchain :=
  match assignFields self now block with
  | None => (Rejected VTypeError, self)
  | Some block' =>
      let self' := commit self block' in
      match validateChain self' with
      | Resolved errorLog =>
          if isNonEmptyArray errorLog
          then (Rejected errorLog, rollback self')
          else (Resolved (VBlock block'), self')
      | Rejected e => (Rejected e, self')
      | Pending => (Pending, self')
      end
  end.

(** [initializeChain] (lines 36-41): the ledger it leaves. *)
Definition initializeChain (self : Blockchain) (now : Z) : Blockchain :=
  if height self =? -1
  then snd (_addBlock self now (Block_new (DataString "Genesis Block")))
  else self.

(** [new Blockchain()] (lines 25-29) at clock reading [now]. *)
Definition Blockchain_new (now : Z) : Blockchain :=
  initializeChain (mkBlockchain [] (-1)) now.

(** [getChainHeight] (lines 46-50). *)
Definition getChainHeight (self : Blockchain) : Promise :=
  Resolved (VNumber (height self)).

(** [requestMessageOwnershipVerification] (lines 110-114). *)
Definition requestMessageOwnershipVerification (address : string) (now : Z) : Promise :=
  Resolved (VString (address ++ ":" ++ JS.timeString now ++ ":starRegistry")).

Definition challengeExpired : string :=
  "The time for validate the signature has expired, try to get a new verification message".

Definition validationFailed : string :=
  "The message validation is failed! Validate your input and try again".

(** [parseInt(message.split(':')[1])]. *)
Definition messageTime (message : string) : option Z :=
  JS.parseInt_element (nth_error (JS.split ":" message) 1).

(** [parseInt(new Date().getTime().toString().slice(0, -3))]. *)
Definition currentTime (now : Z) : option Z :=
  JS.parseInt (JS.timeString now).

(** The test [currentTime - time >= 300]; a comparison with [NaN] is
    false. *)
Definition expired (now : Z) (message : string) : bool :=
  match currentTime now, messageTime message with
  | Some current, Some time => 300 <=? current - time
  | _, _ => false
  end.

(** The [try] block of [submitStar]: the signature check and the append. *)
Definition verifyAndAdd (self : Blockchain) (now : Z)
    (address message signature : string) (star : Star) : Promise * Blockchain :=
  match bitcoinMessage_verify message address signature with
  | Returns true =>
      _addBlock self now (Block_new (DataStar address message star))
  | Returns false => (Rejected (VString validationFailed), self)
  | Throws e_message => (Rejected (VString e_message), self)
  end.

(** [submitStar] (lines 133-151); [now] is the clock reading of the
    freshness test and [now'] the later one of the append. *)
Definition submitStar (self : Blockchain) (now now' : Z)
    (address message signature : string) (star : Star) : Promise * Blockchain :=
  if expired now message
  then (Rejected (VString challengeExpired), self)
  else verifyAndAdd self now' address message signature star.

Definition noBlockWithHash : string := "There's no block with this hash".

Definition noBlockAtHeight : string := "No block at this height".

(** [array[0]] followed by the truthiness test: a block is truthy,
    [undefined] is not. *)
Definition firstOr (sentinel : string) (bs : list Block.t) : Promise :=
  match bs with
  | b :: _ => Resolved (VBlock b)
  | [] => Resolved (VString sentinel)
  end.

(** [getBlockByHash] (lines 159-169) and [getBlockByHeight] (lines
    176-186). *)
Definition getBlockByHash (self : Blockchain) (hash : string) : Promise :=
  firstOr noBlockWithHash
    (filter (fun b => option_string_eqb (Block.hash b) (Some hash)) (chain self)).

Definition getBlockByHeight (self : Blockchain) (height : Z) : Promise :=
  firstOr noBlockAtHeight
    (filter (fun p => Block.height p =? height) (chain self)).

(** [data.address] and [data.star] of a decoded payload. *)
Definition data_address (data : Data) : option string :=
  match data with
  | DataStar address _ _ => Some address
  | DataString _ => None
  end.

Definition data_star (data : Data) : option Star :=
  match data with
  | DataStar _ _ star => Some star
  | DataString _ => None
  end.

(** The callback of [map] in [getStarsByWalletAddress]; [inl] is the message
    of a rejection of [getBData]. *)
Definition starEntry (b : Block.t) : string + StarEntry :=
  if 0 <? Block.height b then
    match getBData b with
    | inr data => inr (mkStarEntry (data_address data) (data_star data))
    | inl e_message => inl e_message
    end
  else inr (mkStarEntry (Some EmptyString) (Some [])).

(** [Promise.all] over the mapped blocks: all entries in order, or the
    first rejection. *)
Fixpoint all (bs : list Block.t) : string + list StarEntry :=
  match bs with
  | [] => inr []
  | b :: bs' =>
      match starEntry b with
      | inl e_message => inl e_message
      | inr entry =>
          match all bs' with
          | inl e_message => inl e_message
          | inr entries => inr (entry :: entries)
          end
      end
  end.

Definition ownsNoStars : string := "This address owns no stars".

(** [getStarsByWalletAddress] (lines 194-222). *)
Definition getStarsByWalletAddress (self : Blockchain) (address : string) : Promise :=
  match all (chain self) with
  | inl e_message => Rejected (VString e_message)
  | inr blocks =>
      let blocks := filter (fun b => option_string_eqb (owner b) (Some address)) blocks in
      if (0 <? List.length blocks)%nat then Resolved (VStars blocks)
      else Resolved (VString ownsNoStars)
  end.

End Ledger.

(** ** The properties of the ledger, in the words of the specification *)

Section Properties.

Context {ext : Collaborators}.

(** The link of block [b] holds, as the code tests it: a block above
    height 0 stores the hash stored in the block one height below it.  The
    specification compares with the hash recomputed from that block
    ([recomputedLinkMatches]). *)
Definition linkMatches (self : Blockchain) (b : Block.t) : bool :=
  if 0 <? Block.height b then
    match at_index (chain self) (Block.height b - 1) with
    | Some prevB => option_string_eqb (Block.previousBlockHash b) (Block.hash prevB)
    | None => false
    end
  else true.

(** The violations of one block: a broken link, then a self-hash mismatch. *)
Definition violationsOf (self : Blockchain) (b : Block.t) : list Violation :=
  (if linkMatches self b then [] else [brokenAt b])
  ++ (if validate b then [] else [invalidAt b]).

(** Every violation of the ledger, in chain order. *)
Definition allViolations (self : Blockchain) : list Violation :=
  flat_map (violationsOf self) (chain self).

(** The ledger is fully consistent: every link matches and every block
    validates itself. *)
Definition consistent (self : Blockchain) : Prop :=
  forall b, In b (chain self) -> linkMatches self b = true /\ validate b = true.

(** A block above height 0 names a height below it that the chain holds. *)
Definition inRange (self : Blockchain) (b : Block.t) : Prop :=
  0 < Block.height b -> Block.height b - 1 < Z.of_nat (List.length (chain self)).

Definition heightsInRange (self : Blockchain) : Prop :=
  forall b, In b (chain self) -> inRange self b.

(** The stored height is the number of blocks minus one. *)
Definition heightMatchesLength (self : Blockchain) : Prop :=
  height self = Z.of_nat (List.length (chain self)) - 1.

(** Every block sits at the position its height names. *)
Definition heightsArePositions (self : Blockchain) : Prop :=
  forall i b, nth_error (chain self) i = Some b -> Block.height b = Z.of_nat i.

(** The blocks that [getStarsByWalletAddress] decodes, and the filter it
    applies to the entries. *)
Definition aboveGenesis (b : Block.t) : bool := 0 <? Block.height b.

Definition ownedBy (address : string) (entry : StarEntry) : bool :=
  option_string_eqb (owner entry) (Some address).

(** The entry that stands for a block at height 0. *)
Definition genesisEntry : StarEntry := mkStarEntry (Some EmptyString) (Some []).

(** [b] is the first block of [bs] that passes the test [f]. *)
Definition firstWith (f : Block.t -> bool) (bs : list Block.t) (b : Block.t) : Prop :=
  exists before behind,
    bs = before ++ b :: behind
    /\ f b = true
    /\ forall x, In x before -> f x = false.

(** The genesis block of a ledger constructed at clock reading [now]. *)
Definition genesis (now : Z) : Block.t :=
  let draft :=
    Block.mk None 0 (encode (DataString "Genesis Block")) (JS.timeString now) None in
  Block.set_hash (Some (SHA256 (JSON_stringify draft))) draft.

(** The ledgers obtained from a fresh one by [n] successful appends. *)
Inductive appended : nat -> Blockchain -> Prop :=
| appended_fresh (now : Z) : appended 0 (Blockchain_new now)
| appended_more (n : nat) (self self' : Blockchain) (now : Z)
    (block : Block.t) (v : Value) :
    appended n self ->
    _addBlock self now block = (Resolved v, self') ->
    appended (S n) self'.

(** The calls a client can make on a ledger. *)
Inductive Call : Type :=
| CallInitializeChain (now : Z)
| CallGetChainHeight
| CallAddBlock (now : Z) (block : Block.t)
| CallRequestMessageOwnershipVerification (address : string) (now : Z)
| CallSubmitStar (now now' : Z) (address message signature : string) (star : Star)
| CallGetBlockByHash (hash : string)
| CallGetBlockByHeight (height : Z)
| CallGetStarsByWalletAddress (address : string)
| CallValidateChain.

(** The ledger a call leaves behind. *)
Definition after (self : Blockchain) (c : Call) : Blockchain :=
  match c with
  | CallInitializeChain now => initializeChain self now
  | CallAddBlock now block => snd (_addBlock self now block)
  | CallSubmitStar now now' address message signature star =>
      snd (submitStar self now now' address message signature star)
  | CallGetChainHeight
  | CallRequestMessageOwnershipVerification _ _
  | CallGetBlockByHash _
  | CallGetBlockByHeight _
  | CallGetStarsByWalletAddress _
  | CallValidateChain => self
  end.

(** The ledgers reachable from a fresh one by any sequence of calls. *)
Inductive reachable : Blockchain -> Prop :=
| reachable_new (now : Z) : reachable (Blockchain_new now)
| reachable_after (self : Blockchain) (c : Call) :
    reachable self -> reachable (after self c).

(** Appends in flight.  Between the tentative commit and the look at the
    validation result [_addBlock] awaits, and other calls may run: the
    ledger comes with the results that appends still await.  An append either
    commits and starts to await its result, or looks at a result that has
    arrived and rolls back when it is a non-empty error log. *)
Record InFlight : Type := mkInFlight
  { ledger : Blockchain;
    awaited : list Promise }.

Inductive flight : InFlight -> Prop :=
| flight_constructed : flight (mkInFlight (mkBlockchain [] (-1)) [])
| flight_commit (st : InFlight) (now : Z) (block b : Block.t) :
    flight st ->
    assignFields (ledger st) now block = Some b ->
    flight (mkInFlight (commit (ledger st) b)
              (validateChain (commit (ledger st) b) :: awaited st))
| flight_settle (st : InFlight) (before behind : list Promise) (errorLog : Value) :
    flight st ->
    awaited st = before ++ Resolved errorLog :: behind ->
    flight (mkInFlight
              (if isNonEmptyArray errorLog then rollback (ledger st) else ledger st)
              (before ++ behind)).

(** ** Further notions, for the properties beyond the claims *)

(** The string [s] holds the code unit [c]. *)
Fixpoint contains (c : ascii) (s : string) : bool :=
  match s with
  | EmptyString => false
  | String x s' => Ascii.eqb x c || contains c s'
  end.

(** Every block above the first stores the hash stored in the block before
    it. *)
Definition linked (self : Blockchain) : Prop :=
  forall i b c,
    nth_error (chain self) i = Some b ->
    nth_error (chain self) (S i) = Some c ->
    Block.previousBlockHash c = Block.hash b.

(** The chain after an assignment [chain[i].hash = h] made from outside the
    class; nothing happens when there is no block at [i]. *)
Fixpoint setHashAt (i : nat) (h : option string) (bs : list Block.t) : list Block.t :=
  match bs, i with
  | [], _ => []
  | b :: bs', O => Block.set_hash h b :: bs'
  | b :: bs', S i' => b :: setHashAt i' h bs'
  end.

(** The chain after the object at index [i] has been written to: [b] is
    what the object holds now. *)
Fixpoint storeAt (i : nat) (b : Block.t) (bs : list Block.t) : list Block.t :=
  match bs, i with
  | [], _ => []
  | _ :: bs', O => b :: bs'
  | x :: bs', S i' => x :: storeAt i' b bs'
  end.

(** [_addBlock(self.chain[i])]: the append given the very object that the
    chain holds at index [i], the objects of the chain being distinct.
    Lines 68-73 write to that object, so the committed block at [i] changes
    in place (the hash of the latest block is read before any hash is
    written); the push adds a second reference to it; a rollback pops that
    reference and leaves the block at [i] rewritten.  With no block at [i]
    the argument is [undefined] and the first write throws. *)
Definition _addBlock_stored (self : Blockchain) (now : Z) (i : nat)
  : Promise * Blockchain :=
  match nth_error (chain self) i with
  | None => (Rejected VTypeError, self)
  | Some block =>
      match assignFields self now block with
      | None =>
          (Rejected VTypeError,
           mkBlockchain
             (storeAt i (Block.set_time (JS.timeString now)
                           (Block.set_height (height self + 1) block))
                (chain self))
             (height self))
      | Some block' =>
          let self' :=
            commit (mkBlockchain (storeAt i block' (chain self)) (height self))
              block' in
          match validateChain self' with
          | Resolved errorLog =>
              if isNonEmptyArray errorLog
              then (Rejected errorLog, rollback self')
              else (Resolved (VBlock block'), self')
          | Rejected e => (Rejected e, self')
          | Pending => (Pending, self')
          end
      end
  end.

(** The call passes no block object that the chain already holds: the
    public methods make their own new block, and [_addBlock] is given one
    that is not in the chain. *)
Definition givesNewBlock (self : Blockchain) (c : Call) : Prop :=
  match c with
  | CallAddBlock _ block => ~ In block (chain self)
  | _ => True
  end.

(** The ledgers reachable from a fresh one by calls that give new blocks. *)
Inductive reachableNew : Blockchain -> Prop :=
| reachableNew_new (now : Z) : reachableNew (Blockchain_new now)
| reachableNew_after (self : Blockchain) (c : Call) :
    reachableNew self -> givesNewBlock self c -> reachableNew (after self c).

(** The link of block [b] in the words of the specification: the stored
    previous hash is the hash recomputed from the block one height below. *)
Definition recomputedLinkMatches (self : Blockchain) (b : Block.t) : bool :=
  if 0 <? Block.height b then
    match at_index (chain self) (Block.height b - 1) with
    | Some prevB =>
        option_string_eqb (Block.previousBlockHash b)
          (Some (SHA256 (JSON_stringify (Block.set_hash None prevB))))
    | None => false
    end
  else true.

End Properties.

(** ** A concrete set of collaborators, for running the ledger *)

Module Demo.

Definition showOption (o : option string) : string :=
  match o with Some s => s | None => "null" end.

Definition stringify (b : Block.t) : string :=
  "hash=" ++ showOption (Block.hash b)
  ++ ";height=" ++ JS.Number_toString (Block.height b)
  ++ ";body=" ++ Block.body b
  ++ ";time=" ++ Block.time b
  ++ ";previousBlockHash=" ++ showOption (Block.previousBlockHash b).

(** A small checksum in place of the digest. *)
Fixpoint checksum (s : string) (acc : Z) : Z :=
  match s with
  | EmptyString => acc
  | String c s' => checksum s' ((acc * 31 + Z.of_nat (nat_of_ascii c)) mod 65521)
  end.

Definition digest (s : string) : string := JS.Number_toString (checksum s 7).

(** The codec writes a star as [address|message|key=value,...]. *)
Fixpoint join (sep : string) (pieces : list string) : string :=
  match pieces with
  | [] => EmptyString
  | [piece] => piece
  | piece :: rest => (piece ++ sep ++ join sep rest)%string
  end.

Definition encodeStar (star : Star) : string :=
  join "," (map (fun kv : string * string => (fst kv ++ "=" ++ snd kv)%string) star).

Definition decodeStar (s : string) : Star :=
  if String.eqb s EmptyString then []
  else map (fun kv => match JS.split "=" kv with
                      | [k; v] => (k, v)
                      | _ => (kv, EmptyString)
                      end) (JS.split "," s).

Definition encodeData (data : Data) : string :=
  match data with
  | DataString s => s
  | DataStar address message star =>
      (address ++ "|" ++ message ++ "|" ++ encodeStar star)%string
  end.

Definition decodeData (body : string) : string + Data :=
  match JS.split "|" body with
  | [address; message; star] => inr (DataStar address message (decodeStar star))
  | [s] => inr (DataString s)
  | _ => inl "Unexpected token"
  end.

(** A signature is the message behind the prefix [sig:]; an empty signature
    is malformed. *)
Definition verify (message address signature : string) : VerifyOutcome :=
  if String.eqb signature EmptyString then Throws "Invalid signature length"
  else Returns (String.eqb signature ("sig:" ++ message)).

#[export] Instance collaborators : Collaborators :=
  {| SHA256 := digest;
     JSON_stringify := stringify;
     encode := encodeData;
     decode := decodeData;
     bitcoinMessage_verify := verify |}.

(** The ledger right after construction, and after one star. *)
Definition fresh : Blockchain := Blockchain_new 1700000000123.

Definition star1 : Star := [("dec", "+1"); ("ra", "5h"); ("story", "test")].

Definition oneStar : Blockchain :=
  snd (submitStar fresh 1700000100456 1700000100999
         "addrA" "addrA:1700000000:starRegistry"
         "sig:addrA:1700000000:starRegistry" star1).

(** A ledger whose genesis block was tampered with, a draft to append to
    it, and the block the append makes of the draft at clock reading
    1700000000123. *)
Definition tamperedGenesis : Block.t :=
  Block.mk (Some "bogus") 0 "Genesis Block" "1700000000" None.

Definition tampered : Blockchain := mkBlockchain [tamperedGenesis] 0.

Definition draft : Block.t := Block_new (DataString "x").

Definition tentative : Block.t :=
  Block.mk (Some "7607") 1 "x" "1700000000" (Some "bogus").

(** A ledger with a block that names a height the chain does not hold. *)
Definition outOfRange : Blockchain :=
  mkBlockchain [Block.mk (Some "h") 5 "x" "1700000000" None] 0.

End Demo.

(** ** More ledgers on the concrete collaborators *)

Module Damaged.

(** A ledger whose second block holds a payload that the codec does not
    decode. *)
Definition undecodableBlock : Block.t :=
  Block.mk (Some "h1") 1 "addrA|cut" "1700000100" (Some "59517").

Definition undecodable : Blockchain :=
  mkBlockchain (chain Demo.fresh ++ [undecodableBlock]) 1.

(** The block of the star on [Demo.oneStar]. *)
Definition starBlock : Block.t :=
  Block.mk (Some "43844") 1
    "addrA|addrA:1700000000:starRegistry|dec=+1,ra=5h,story=test"
    "1700000100" (Some "59517").

(** What the block of the star holds after [_addBlock] was given that very
    object at clock reading 1700000200000. *)
Definition rewrittenStarBlock : Block.t :=
  Block.mk (Some "46439") 2
    "addrA|addrA:1700000000:starRegistry|dec=+1,ra=5h,story=test"
    "1700000200" (Some "43844").

(** The ledger with one star after the payload of its genesis block was
    changed from outside; the stored hashes are as they were. *)
Definition changedGenesis : Block.t :=
  Block.mk (Some "59517") 0 "Genesis Blocc" "1700000000" None.

Definition payloadChanged : Blockchain :=
  mkBlockchain [changedGenesis; starBlock] 1.

(** The ledger right after the constructor has committed the genesis block
    and while its validation result is awaited. *)
Definition genesisInFlight : InFlight :=
  mkInFlight Demo.fresh [Resolved (VString chainIsValid)].

End Damaged.

(** ** The host-language functions on examples *)

Example split_challenge :
  JS.split ":" "addrA:1700000000:starRegistry"
  = ["addrA"; "1700000000"; "starRegistry"].
Proof. reflexivity. Qed.

Example split_no_colon : JS.split ":" "hello" = ["hello"].
Proof. reflexivity. Qed.

Example split_empty_pieces : JS.split ":" ":a::" = [EmptyString; "a"; EmptyString; EmptyString].
Proof. reflexivity. Qed.

Example parseInt_decimal : JS.parseInt "1700000000" = Some 1700000000.
Proof. reflexivity. Qed.

Example parseInt_prefix : JS.parseInt "  -42abc" = Some (-42).
Proof. reflexivity. Qed.

Example parseInt_hex : JS.parseInt "0x1F" = Some 31.
Proof. reflexivity. Qed.

Example parseInt_NaN : JS.parseInt "starRegistry" = None.
Proof. reflexivity. Qed.

Example parseInt_undefined : JS.parseInt_element None = None.
Proof. reflexivity. Qed.

Example timeString_now : JS.timeString 1700000000123 = "1700000000".
Proof. reflexivity. Qed.

Example timeString_short : JS.timeString 999 = EmptyString.
Proof. reflexivity. Qed.

(** ** Facts about the host-language functions *)

Module JSFacts.

Import JS.

Lemma append_assoc (a b c : string) : ((a ++ b) ++ c = a ++ (b ++ c))%string.
Proof. induction a as [|x a IH]; simpl; [reflexivity | now rewrite IH]. Qed.

Lemma append_length (a b : string) :
  String.length (a ++ b) = (String.length a + String.length b)%nat.
Proof. induction a as [|x a IH]; simpl; [reflexivity | now rewrite IH]. Qed.

Lemma substring_prefix (a b : string) :
  substring 0 (String.length a) (a ++ b) = a.
Proof.
  induction a as [|x a IH]; simpl.
  - destruct b; reflexivity.
  - now rewrite IH.
Qed.

(** Dropping as many code units as were appended gives the prefix back. *)
Lemma slice_0_neg_append (a b : string) :
  slice_0_neg (String.length b) (a ++ b) = a.
Proof.
  unfold slice_0_neg. rewrite append_length.
  replace (String.length a + String.length b - String.length b)%nat
    with (String.length a) by lia.
  apply substring_prefix.
Qed.

(** The character of the decimal digit [r]. *)
Definition digitChar (r : N) : ascii := ascii_of_N (48 + r).

(** A property of the ten digits holds of every number below ten. *)
Lemma below_ten (P : N -> Prop) :
  P 0%N -> P 1%N -> P 2%N -> P 3%N -> P 4%N ->
  P 5%N -> P 6%N -> P 7%N -> P 8%N -> P 9%N ->
  forall r, (r < 10)%N -> P r.
Proof.
  intros H0 H1 H2 H3 H4 H5 H6 H7 H8 H9 r Hr.
  rewrite <- (N2Nat.id r).
  assert (Hk : (N.to_nat r < 10)%nat) by lia.
  destruct (N.to_nat r) as [|[|[|[|[|[|[|[|[|[|k]]]]]]]]]];
    try assumption; lia.
Qed.

Lemma string_of_uint_revapp d acc :
  NilEmpty.string_of_uint (Decimal.revapp d acc)
  = (NilEmpty.string_of_uint (Decimal.rev d) ++ NilEmpty.string_of_uint acc)%string.
Proof.
  revert acc. unfold Decimal.rev.
  induction d; intro acc; simpl; try reflexivity;
    rewrite IHd; symmetry; rewrite IHd; simpl;
    rewrite append_assoc; reflexivity.
Qed.

(** The digits of [10 * q + r] are those of [q] followed by the digit [r]. *)
Lemma digits_snoc (q r : N) :
  (0 < q)%N -> (r < 10)%N ->
  NilEmpty.string_of_uint (Decimal.rev (Unsigned.to_lu (10 * q + r)))
  = (NilEmpty.string_of_uint (Decimal.rev (Unsigned.to_lu q))
     ++ String (digitChar r) EmptyString)%string.
Proof.
  intros Hq Hr. destruct q as [|p]; [lia|].
  assert (E : forall k,
             Unsigned.to_lu (N.iter k N.succ (10 * N.pos p)%N)
             = N.iter k Decimal.Little.succ (Decimal.D0 (Unsigned.to_lu (N.pos p)))).
  { intro k. induction k as [|k IH] using N.peano_ind.
    - simpl. apply Unsigned.to_ldec_tenfold.
    - rewrite !N.iter_succ, Unsigned.to_lu_succ. now rewrite IH. }
  assert (R : (10 * N.pos p + r = N.iter r N.succ (10 * N.pos p))%N).
  { clear. induction r as [|r IH] using N.peano_ind; [reflexivity|].
    rewrite N.iter_succ. lia. }
  rewrite R, E. clear R. revert r Hr.
  apply below_ten; unfold Decimal.rev; cbn -[Unsigned.to_lu];
    rewrite string_of_uint_revapp; reflexivity.
Qed.

Lemma Number_toString_pos (p : positive) :
  Number_toString (Z.pos p)
  = NilEmpty.string_of_uint (Decimal.rev (Unsigned.to_lu (N.pos p))).
Proof. reflexivity. Qed.

Lemma Number_toString_digit (n : Z) :
  0 <= n < 10 ->
  Number_toString n = String (digitChar (Z.to_N n)) EmptyString.
Proof.
  intro H. rewrite <- (Z2N.id n) at 1 by lia.
  assert (Hr : (Z.to_N n < 10)%N) by lia.
  revert Hr. generalize (Z.to_N n). apply below_ten; reflexivity.
Qed.

Lemma Number_toString_snoc (n : Z) :
  10 <= n ->
  Number_toString n
  = (Number_toString (n / 10)
     ++ String (digitChar (Z.to_N (n mod 10))) EmptyString)%string.
Proof.
  intro H.
  assert (Hq : 0 < n / 10) by (apply Z.div_str_pos; lia).
  assert (Hr : 0 <= n mod 10 < 10) by (apply Z.mod_pos_bound; lia).
  assert (En : n = Z.of_N (10 * Z.to_N (n / 10) + Z.to_N (n mod 10))).
  { rewrite N2Z.inj_add, N2Z.inj_mul, !Z2N.id by lia.
    change (Z.of_N 10) with 10. apply Z.div_mod. lia. }
  destruct (n / 10) as [|q|q] eqn:Eq; try lia.
  destruct n as [|p|p]; try lia.
  rewrite !Number_toString_pos.
  assert (Ep : N.pos p = (10 * N.pos q + Z.to_N (Z.pos p mod 10))%N).
  { apply N2Z.inj. change (Z.of_N (N.pos p)) with (Z.pos p).
    exact En. }
  rewrite Ep. apply digits_snoc; lia.
Qed.


Definition isDecimalDigit (c : ascii) : bool :=
  match radixDigit 10 c with Some _ => true | None => false end.

Fixpoint allDecimal (s : string) : bool :=
  match s with
  | EmptyString => true
  | String c s' => isDecimalDigit c && allDecimal s'
  end.

Lemma radixDigit_digitChar (r : N) :
  (r < 10)%N -> radixDigit 10 (digitChar r) = Some (Z.of_N r).
Proof.
  revert r. apply below_ten; reflexivity.
Qed.

Lemma allDecimal_snoc (s : string) (c : ascii) :
  allDecimal s = true -> isDecimalDigit c = true ->
  allDecimal (s ++ String c EmptyString) = true.
Proof.
  intros Hs Hc. induction s as [|x s IH]; simpl in *.
  - now rewrite Hc.
  - apply andb_true_iff in Hs as [Hx Hs]. now rewrite Hx, IH.
Qed.

(** Reading one more digit after a string of digits. *)
Lemma parseDigits_snoc (s : string) (c : ascii) (d : Z) (acc : option Z) :
  allDecimal s = true -> radixDigit 10 c = Some d ->
  parseDigits 10 (s ++ String c EmptyString) acc
  = Some (match parseDigits 10 s acc with Some a => a * 10 + d | None => d end).
Proof.
  intros Hs Hc. revert acc.
  induction s as [|x s IH]; intro acc; simpl in *.
  - now rewrite Hc.
  - apply andb_true_iff in Hs as [Hx Hs]. unfold isDecimalDigit in Hx.
    destruct (radixDigit 10 x); [|discriminate]. now apply IH.
Qed.

Lemma Number_toString_parseDigits (n : Z) :
  0 <= n ->
  allDecimal (Number_toString n) = true
  /\ Number_toString n <> EmptyString
  /\ parseDigits 10 (Number_toString n) None = Some n.
Proof.
  intro Hn. generalize Hn. pattern n.
  apply Z_lt_induction; [clear n Hn | exact Hn].
  intros n IH Hn.
  destruct (Z_lt_ge_dec n 10) as [Hlt|Hge].
  - rewrite Number_toString_digit by lia.
    pose proof (radixDigit_digitChar (Z.to_N n) ltac:(lia)) as Hd.
    simpl. unfold isDecimalDigit. rewrite Hd, Z2N.id by lia.
    repeat split. discriminate.
  - rewrite Number_toString_snoc by lia.
    destruct (IH (n / 10)) as (Hall & Hne & Hparse).
    { split; [apply Z.div_pos; lia | apply Z.div_lt; lia]. }
    { apply Z.div_pos; lia. }
    assert (Hr : 0 <= n mod 10 < 10) by (apply Z.mod_pos_bound; lia).
    pose proof (radixDigit_digitChar (Z.to_N (n mod 10)) ltac:(lia)) as Hd.
    rewrite Z2N.id in Hd by lia.
    repeat split.
    + apply allDecimal_snoc; [exact Hall|].
      unfold isDecimalDigit. now rewrite Hd.
    + destruct (Number_toString (n / 10)); [congruence | discriminate].
    + rewrite (parseDigits_snoc _ _ _ _ Hall Hd), Hparse.
      f_equal. pose proof (Z.div_mod n 10). lia.
Qed.

Lemma parseInt_allDecimal (s : string) :
  allDecimal s = true -> s <> EmptyString ->
  parseInt s = parseDigits 10 s None.
Proof.
  intros Hs Hne. destruct s as [|c s]; [congruence|]. clear Hne.
  simpl in Hs. apply andb_true_iff in Hs as [Hc Hs].
  assert (Hone : forall o : option Z,
             match o with Some m => Some (1 * m) | None => None end = o).
  { intros [m|]; [now rewrite Z.mul_1_l | reflexivity]. }
  destruct c as [[] [] [] [] [] [] [] []]; try discriminate Hc;
    unfold parseInt; cbn [trimStart isWhiteSpace]; 
    try (cbv match beta; apply Hone).
  change (isWhiteSpace "0") with false. cbv iota.
  destruct s as [|c2 s2]; [reflexivity|].
  simpl in Hs. apply andb_true_iff in Hs as [Hc2 _].
  destruct c2 as [[] [] [] [] [] [] [] []]; try discriminate Hc2;
    cbv match beta; apply Hone.
Qed.

Theorem parseInt_Number_toString (n : Z) :
  0 <= n -> parseInt (Number_toString n) = Some n.
Proof.
  intro Hn.
  destruct (Number_toString_parseDigits n Hn) as (Hall & Hne & Hparse).
  now rewrite parseInt_allDecimal.
Qed.

(** From one second after the epoch on, the time string is the decimal
    print of the whole seconds. *)
Theorem timeString_seconds (now : Z) :
  1000 <= now -> timeString now = Number_toString (now / 1000).
Proof.
  intro H. unfold timeString.
  assert (H10 : 100 <= now / 10) by (apply Z.div_le_lower_bound; lia).
  assert (H100 : 10 <= now / 10 / 10) by (apply Z.div_le_lower_bound; lia).
  rewrite (Number_toString_snoc now) by lia.
  rewrite (Number_toString_snoc (now / 10)) by lia.
  rewrite (Number_toString_snoc (now / 10 / 10)) by lia.
  rewrite !Z.div_div by lia. change (10 * 10 * 10) with 1000.
  rewrite !append_assoc.
  apply (slice_0_neg_append _ (String _ (String _ (String _ EmptyString)))).
Qed.

End JSFacts.

(** ** Facts about the ledger *)

Section LedgerFacts.

Context {ext : Collaborators}.

Lemma option_string_eqb_eq (a b : option string) :
  option_string_eqb a b = true <-> a = b.
Proof.
  destruct a as [x|], b as [y|]; simpl; try (split; congruence).
  rewrite String.eqb_eq. split; congruence.
Qed.

Lemma option_string_eqb_refl (a : option string) : option_string_eqb a a = true.
Proof. now apply option_string_eqb_eq. Qed.

Lemma pop_push (bs : list Block.t) (b : Block.t) : pop (push bs b) = bs.
Proof. apply removelast_last. Qed.

Lemma rollback_commit (self : Blockchain) (b : Block.t) :
  rollback (commit self b) = self.
Proof.
  destruct self as [bs h]. unfold rollback, commit. simpl.
  rewrite pop_push. f_equal. lia.
Qed.

Lemma at_index_Some (bs : list Block.t) (i : Z) :
  0 <= i < Z.of_nat (List.length bs) -> exists b, at_index bs i = Some b.
Proof.
  intros [Hlo Hhi]. unfold at_index.
  destruct (Z.ltb_spec i 0) as [|_]; [lia|].
  destruct (nth_error bs (Z.to_nat i)) as [b|] eqn:E; [now exists b|].
  apply nth_error_None in E. lia.
Qed.

Lemma at_index_None (bs : list Block.t) (i : Z) :
  Z.of_nat (List.length bs) <= i -> at_index bs i = None.
Proof.
  intro H. unfold at_index.
  destruct (Z.ltb_spec i 0) as [|_]; [reflexivity|].
  apply nth_error_None. lia.
Qed.

Lemma at_index_In (bs : list Block.t) (i : Z) (b : Block.t) :
  at_index bs i = Some b -> In b bs.
Proof.
  unfold at_index. destruct (i <? 0); [discriminate|]. apply nth_error_In.
Qed.

Lemma at_index_push_old (bs : list Block.t) (b : Block.t) (i : Z) :
  i < Z.of_nat (List.length bs) -> at_index (push bs b) i = at_index bs i.
Proof.
  intro H. unfold at_index, push.
  destruct (Z.ltb_spec i 0) as [|Hi]; [reflexivity|].
  apply nth_error_app1. lia.
Qed.

Lemma at_index_push_new (bs : list Block.t) (b : Block.t) :
  at_index (push bs b) (Z.of_nat (List.length bs)) = Some b.
Proof.
  unfold at_index, push.
  destruct (Z.ltb_spec (Z.of_nat (List.length bs)) 0) as [|_]; [lia|].
  rewrite Nat2Z.id, nth_error_app2, Nat.sub_diag by lia. reflexivity.
Qed.

(** *** The callback and the loop of [validateChain] *)

Lemma checkBlock_inRange (self : Blockchain) (b : Block.t) :
  inRange self b -> checkBlock self b = Some (violationsOf self b).
Proof.
  intro H. unfold checkBlock, violationsOf, linkMatches, inRange in *.
  destruct (Z.ltb_spec 0 (Block.height b)) as [Hpos|_]; [|reflexivity].
  destruct (at_index_Some (chain self) (Block.height b - 1)) as [prevB E];
    [lia|].
  rewrite E.
  now destruct (option_string_eqb (Block.previousBlockHash b) (Block.hash prevB)).
Qed.

Lemma checkBlock_outOfRange (self : Blockchain) (b : Block.t) :
  ~ inRange self b -> checkBlock self b = None.
Proof.
  intro H. unfold checkBlock, inRange in *.
  destruct (Z.ltb_spec 0 (Block.height b)) as [Hpos|Hle]; [|exfalso; apply H; lia].
  rewrite at_index_None; [reflexivity|].
  destruct (Z_lt_ge_dec (Block.height b - 1) (Z.of_nat (List.length (chain self))));
    [exfalso; apply H; intros _; assumption | lia].
Qed.

Lemma inRange_dec (self : Blockchain) (b : Block.t) :
  {inRange self b} + {~ inRange self b}.
Proof.
  unfold inRange.
  destruct (Z_lt_ge_dec 0 (Block.height b)) as [Hpos|Hle]; [|left; lia].
  destruct (Z_lt_ge_dec (Block.height b - 1) (Z.of_nat (List.length (chain self))));
    [left; trivial | right; lia].
Qed.

Lemma forEach_inRange (self : Blockchain) (bs : list Block.t) (errorLog : list Violation) :
  (forall b, In b bs -> inRange self b) ->
  forEach self bs errorLog = Some (errorLog ++ flat_map (violationsOf self) bs).
Proof.
  revert errorLog. induction bs as [|b bs IH]; intros errorLog H; simpl.
  - now rewrite List.app_nil_r.
  - rewrite checkBlock_inRange by (apply H; now left).
    rewrite IH by (intros; apply H; now right).
    now rewrite List.app_assoc.
Qed.

Lemma forEach_Some_inRange (self : Blockchain) (bs : list Block.t)
    (errorLog log : list Violation) :
  forEach self bs errorLog = Some log -> forall b, In b bs -> inRange self b.
Proof.
  revert errorLog. induction bs as [|b bs IH]; intros errorLog H c Hc; simpl in *.
  - contradiction.
  - destruct (inRange_dec self b) as [Hb|Hb].
    + destruct Hc as [<-|Hc]; [exact Hb|].
      rewrite checkBlock_inRange in H by exact Hb. eapply IH; eauto.
    + now rewrite checkBlock_outOfRange in H.
Qed.

Lemma length_pos_iff {A : Type} (l : list A) :
  (0 <? List.length l)%nat = true <-> l <> [].
Proof.
  destruct l; simpl; split; intro H;
    solve [discriminate H | congruence | reflexivity | discriminate].
Qed.

(** The promise of [validateChain] settles exactly on the ledgers whose
    heights are in range, and then with every violation. *)
Lemma validateChain_inRange (self : Blockchain) :
  heightsInRange self ->
  validateChain self
  = if (0 <? List.length (allViolations self))%nat
    then Resolved (VErrorLog (allViolations self))
    else Resolved (VString chainIsValid).
Proof.
  intro H. unfold validateChain.
  rewrite forEach_inRange by exact H. reflexivity.
Qed.

Lemma validateChain_settled (self : Blockchain) :
  validateChain self <> Pending -> heightsInRange self.
Proof.
  unfold validateChain. intro H.
  destruct (forEach self (chain self) []) as [log|] eqn:E; [|congruence].
  intros b Hb. eapply forEach_Some_inRange; eauto.
Qed.

(** On a consistent ledger every link finds its predecessor. *)
Lemma consistent_heightsInRange (self : Blockchain) :
  consistent self -> heightsInRange self.
Proof.
  intros Hc b Hb Hpos.
  destruct (Hc b Hb) as [Hlink _]. unfold linkMatches in Hlink.
  rewrite (proj2 (Z.ltb_lt _ _) Hpos) in Hlink.
  destruct (Z_lt_ge_dec (Block.height b - 1)
              (Z.of_nat (List.length (chain self)))) as [Hlt|Hge];
    [exact Hlt|].
  rewrite at_index_None in Hlink by lia. discriminate.
Qed.

Lemma validateChain_pending_iff (self : Blockchain) :
  validateChain self = Pending <-> ~ heightsInRange self.
Proof.
  split.
  - intros H Hrange. rewrite (validateChain_inRange self Hrange) in H.
    destruct (0 <? List.length (allViolations self))%nat; discriminate.
  - intro H. destruct (validateChain self) as [v|e|] eqn:E; [| |reflexivity];
      exfalso; apply H, validateChain_settled; rewrite E; discriminate.
Qed.

Lemma validateChain_cases (self : Blockchain) :
  validateChain self = Pending
  \/ validateChain self = Resolved (VString chainIsValid)
  \/ exists errorLog, errorLog <> []
       /\ validateChain self = Resolved (VErrorLog errorLog).
Proof.
  unfold validateChain.
  destruct (forEach self (chain self) []) as [log|]; [|now left].
  right. destruct (0 <? List.length log)%nat eqn:E; [|now left].
  right. exists log. split; [now apply length_pos_iff | reflexivity].
Qed.

Lemma validateChain_errorLog (self : Blockchain) (errorLog : list Violation) :
  validateChain self = Resolved (VErrorLog errorLog) ->
  isNonEmptyArray (VErrorLog errorLog) = true.
Proof.
  unfold validateChain.
  destruct (forEach self (chain self) []) as [log|]; [|discriminate].
  destruct (0 <? List.length log)%nat eqn:E; [|discriminate].
  intro H. injection H as <-. exact E.
Qed.

Lemma violationsOf_nil (self : Blockchain) (b : Block.t) :
  violationsOf self b = [] <-> linkMatches self b = true /\ validate b = true.
Proof.
  unfold violationsOf.
  destruct (linkMatches self b), (validate b); simpl; split;
    try (intros [? ?]); try intro; try discriminate; auto.
Qed.

Lemma allViolations_nil (self : Blockchain) :
  allViolations self = [] <-> consistent self.
Proof.
  unfold allViolations, consistent.
  induction (chain self) as [|b bs IH]; simpl.
  - split; [intros _ b [] | reflexivity].
  - split.
    + intro H. apply app_eq_nil in H as [Hb Hbs].
      intros c [<-|Hc]; [now apply violationsOf_nil | now apply IH].
    + intro H.
      assert (Hb : violationsOf self b = [])
        by (apply violationsOf_nil, H; now left).
      rewrite Hb. simpl. apply IH. intros c Hc. apply H. now right.
Qed.

(** *** Appending *)

Lemma commit_heightMatchesLength (self : Blockchain) (b : Block.t) :
  heightMatchesLength self -> heightMatchesLength (commit self b).
Proof.
  unfold heightMatchesLength, commit, push. simpl. intro H.
  rewrite length_app. simpl. lia.
Qed.

(** What a resolved append did. *)
Lemma addBlock_resolved (self self' : Blockchain) (now : Z) (block : Block.t) (v : Value) :
  _addBlock self now block = (Resolved v, self') ->
  exists b, assignFields self now block = Some b
    /\ v = VBlock b
    /\ self' = commit self b
    /\ validateChain self' = Resolved (VString chainIsValid).
Proof.
  unfold _addBlock.
  destruct (assignFields self now block) as [b|]; [|discriminate].
  destruct (validateChain_cases (commit self b)) as [E|[E|(log & Hlog & E)]];
    rewrite E; simpl.
  - discriminate.
  - intro H. injection H as <- <-. exists b. auto.
  - apply length_pos_iff in Hlog. rewrite Hlog. discriminate.
Qed.

Lemma assignFields_fields (self : Blockchain) (now : Z) (block b : Block.t) :
  assignFields self now block = Some b ->
  Block.height b = height self + 1
  /\ Block.time b = JS.timeString now
  /\ Block.body b = Block.body block
  /\ (0 <= height self ->
      exists latest, _getLatestBlock self = Some latest
        /\ Block.previousBlockHash b = Block.hash latest)
  /\ (height self < 0 ->
      Block.previousBlockHash b = Block.previousBlockHash block)
  /\ (Block.hash block = None ->
      Block.hash b = Some (SHA256 (JSON_stringify (Block.set_hash None b)))).
Proof.
  unfold assignFields.
  destruct (Z.leb_spec 0 (height self)) as [Hh|Hh].
  - destruct (_getLatestBlock self) as [latest|]; [|discriminate].
    intro H. injection H as <-. simpl. repeat split; try lia.
    + intros _. now exists latest.
    + intro Hnone. destruct block as [h ? ? ? ?]. simpl in *. now subst h.
  - intro H. injection H as <-. simpl. repeat split; try lia.
    intro Hnone. destruct block as [h ? ? ? ?]. simpl in *. now subst h.
Qed.

Lemma flat_map_agree {A B : Type} (f g : A -> list B) (l : list A) :
  (forall a, In a l -> f a = g a) -> flat_map f l = flat_map g l.
Proof.
  induction l as [|a l IH]; intro H; simpl; [reflexivity|].
  rewrite (H a) by now left. rewrite IH; [reflexivity|].
  intros; apply H; now right.
Qed.

Lemma valid_noViolations (self : Blockchain) :
  validateChain self = Resolved (VString chainIsValid) ->
  heightsInRange self /\ allViolations self = [].
Proof.
  intro H.
  assert (Hr : heightsInRange self)
    by (apply validateChain_settled; rewrite H; discriminate).
  split; [exact Hr|].
  rewrite (validateChain_inRange self Hr) in H.
  destruct (allViolations self); [reflexivity | discriminate].
Qed.

Lemma latest_of_nonempty (self : Blockchain) :
  heightMatchesLength self -> 0 <= height self ->
  exists latest, _getLatestBlock self = Some latest.
Proof.
  unfold heightMatchesLength, _getLatestBlock. intros H Hh.
  apply at_index_Some. lia.
Qed.

Lemma commit_heightsInRange (self : Blockchain) (now : Z) (block b : Block.t) :
  heightMatchesLength self -> heightsInRange self ->
  assignFields self now block = Some b ->
  heightsInRange (commit self b).
Proof.
  intros Hlen Hrange Hb c Hc.
  destruct (assignFields_fields _ _ _ _ Hb) as (Hheight & _).
  unfold inRange. simpl. unfold push in *. rewrite length_app. simpl.
  apply in_app_or in Hc as [Hc|[<-|[]]].
  - intro Hpos. specialize (Hrange c Hc Hpos). lia.
  - unfold heightMatchesLength in Hlen. lia.
Qed.

(** On a valid ledger whose height matches its length, appending a draft
    (a block whose hash is not yet assigned) succeeds. *)
Lemma addBlock_draft_resolves (self : Blockchain) (now : Z) (block : Block.t) :
  heightMatchesLength self ->
  validateChain self = Resolved (VString chainIsValid) ->
  Block.hash block = None ->
  exists b, _addBlock self now block = (Resolved (VBlock b), commit self b).
Proof.
  intros Hlen Hvalid Hdraft.
  destruct (valid_noViolations self Hvalid) as [Hrange Hnone].
  assert (Hb : exists b, assignFields self now block = Some b).
  { unfold assignFields.
    destruct (Z.leb_spec 0 (height self)) as [Hh|Hh]; [|eauto].
    destruct (latest_of_nonempty self Hlen Hh) as [latest ->]. eauto. }
  destruct Hb as [b Hb]. exists b.
  destruct (assignFields_fields _ _ _ _ Hb)
    as (Hheight & _ & _ & Hprev & _ & Hhash).
  specialize (Hhash Hdraft).
  assert (Hold : forall c, In c (chain self) ->
                   violationsOf (commit self b) c = violationsOf self c).
  { intros c Hc. unfold violationsOf, linkMatches. simpl.
    destruct (Z.ltb_spec 0 (Block.height c)) as [Hpos|_]; [|reflexivity].
    rewrite at_index_push_old by (apply Hrange; assumption). reflexivity. }
  assert (Hnew : violationsOf (commit self b) b = []).
  { apply violationsOf_nil. split.
    - unfold linkMatches. simpl.
      destruct (Z.ltb_spec 0 (Block.height b)) as [Hpos|_]; [|reflexivity].
      destruct Hprev as (latest & Hlatest & ->); [lia|].
      unfold _getLatestBlock in Hlatest. unfold heightMatchesLength in Hlen.
      rewrite at_index_push_old by lia.
      replace (Block.height b - 1)
        with (Z.of_nat (List.length (chain self)) - 1) by lia.
      rewrite Hlatest. apply option_string_eqb_refl.
    - unfold validate. rewrite Hhash at 1. apply option_string_eqb_refl. }
  pose proof (commit_heightsInRange self now block b Hlen Hrange Hb) as Hrange'.
  assert (Hnone' : allViolations (commit self b) = []).
  { unfold allViolations in *. simpl. unfold push.
    rewrite flat_map_app. simpl. rewrite Hnew, List.app_nil_r.
    now rewrite (flat_map_agree _ _ _ Hold). }
  unfold _addBlock. rewrite Hb.
  rewrite (validateChain_inRange _ Hrange'), Hnone'. reflexivity.
Qed.

(** *** The fresh ledger and the ledgers grown from it *)

Lemma empty_heightMatchesLength : heightMatchesLength (mkBlockchain [] (-1)).
Proof. reflexivity. Qed.

Lemma genesis_validates (now : Z) : validate (genesis now) = true.
Proof. unfold validate, genesis. simpl. apply String.eqb_refl. Qed.

Lemma genesis_ledger_valid (now : Z) :
  validateChain (mkBlockchain [genesis now] 0) = Resolved (VString chainIsValid).
Proof.
  unfold validateChain, forEach, checkBlock, chain.
  change (0 <? Block.height (genesis now)) with false. cbv iota.
  now rewrite genesis_validates.
Qed.

Lemma Blockchain_new_genesis (now : Z) :
  Blockchain_new now = mkBlockchain [genesis now] 0.
Proof.
  unfold Blockchain_new, initializeChain, _addBlock.
  change (height (mkBlockchain [] (-1)) =? -1) with true. cbv iota.
  change (assignFields (mkBlockchain [] (-1)) now
            (Block_new (DataString "Genesis Block")))
    with (Some (genesis now)).
  cbv iota beta.
  change (commit (mkBlockchain [] (-1)) (genesis now))
    with (mkBlockchain [genesis now] 0).
  now rewrite genesis_ledger_valid.
Qed.

Lemma Blockchain_new_valid (now : Z) :
  validateChain (Blockchain_new now) = Resolved (VString chainIsValid).
Proof. rewrite Blockchain_new_genesis. apply genesis_ledger_valid. Qed.

Lemma appended_valid (n : nat) (self : Blockchain) :
  appended n self ->
  validateChain self = Resolved (VString chainIsValid)
  /\ height self = Z.of_nat n.
Proof.
  induction 1 as [now|n self self' now block v _ [_ IH] Hadd].
  - split; [apply Blockchain_new_valid|].
    now rewrite Blockchain_new_genesis.
  - destruct (addBlock_resolved _ _ _ _ _ Hadd) as (b & _ & _ & -> & Hvalid).
    split; [exact Hvalid|]. simpl. lia.
Qed.

(** *** Calls keep the height in step with the length *)

Lemma addBlock_heightMatchesLength (self : Blockchain) (now : Z) (block : Block.t) :
  heightMatchesLength self ->
  heightMatchesLength (snd (_addBlock self now block)).
Proof.
  intro H. unfold _addBlock.
  destruct (assignFields self now block) as [b|]; [|exact H].
  pose proof (commit_heightMatchesLength self b H) as Hc.
  destruct (validateChain (commit self b)) as [v|e|]; try exact Hc.
  destruct (isNonEmptyArray v); [|exact Hc].
  simpl. now rewrite rollback_commit.
Qed.

Lemma initializeChain_heightMatchesLength (self : Blockchain) (now : Z) :
  heightMatchesLength self -> heightMatchesLength (initializeChain self now).
Proof.
  intro H. unfold initializeChain.
  destruct (height self =? -1); [|exact H].
  now apply addBlock_heightMatchesLength.
Qed.

Lemma submitStar_heightMatchesLength (self : Blockchain) (now now' : Z)
    (address message signature : string) (star : Star) :
  heightMatchesLength self ->
  heightMatchesLength
    (snd (submitStar self now now' address message signature star)).
Proof.
  intro H. unfold submitStar, verifyAndAdd.
  destruct (expired now message); [exact H|].
  destruct (bitcoinMessage_verify message address signature) as [[|]|e];
    try exact H.
  now apply addBlock_heightMatchesLength.
Qed.

Lemma rollback_heightMatchesLength (self : Blockchain) :
  chain self <> [] ->
  heightMatchesLength self -> heightMatchesLength (rollback self).
Proof.
  unfold heightMatchesLength, rollback, pop. simpl. intros Hne H.
  rewrite removelast_firstn_len, length_firstn.
  destruct (chain self) as [|b bs]; [congruence|].
  cbn [List.length Nat.pred] in *. lia.
Qed.

(** With appends in flight the height still matches the length: no more
    results are awaited than the chain has blocks, so a rollback always
    finds a block to pop. *)
Lemma flight_heightMatchesLength (st : InFlight) :
  flight st ->
  heightMatchesLength (ledger st)
  /\ (List.length (awaited st) <= List.length (chain (ledger st)))%nat.
Proof.
  induction 1 as [|st now block b _ [IH Hle] Hassign
                  |st before behind errorLog _ [IH Hle] Hawait]; simpl.
  - split; [reflexivity | lia].
  - split; [now apply commit_heightMatchesLength|].
    unfold push. rewrite length_app. simpl. lia.
  - rewrite Hawait, length_app in Hle. simpl in Hle. rewrite length_app.
    destruct (isNonEmptyArray errorLog).
    + split.
      * apply rollback_heightMatchesLength; [|exact IH].
        destruct (chain (ledger st)); [simpl in Hle; lia | discriminate].
      * simpl. unfold pop. rewrite removelast_firstn_len, length_firstn. lia.
    + split; [exact IH | lia].
Qed.

Lemma after_heightMatchesLength (self : Blockchain) (c : Call) :
  heightMatchesLength self -> heightMatchesLength (after self c).
Proof.
  intro H. destruct c; simpl; try exact H.
  - now apply initializeChain_heightMatchesLength.
  - now apply addBlock_heightMatchesLength.
  - now apply submitStar_heightMatchesLength.
Qed.

(** *** Every reachable ledger is valid *)

(** An append, whatever block it is given, leaves a valid ledger valid: it
    resolves on a valid chain or rolls back to the one before, and its
    validation always settles. *)
Lemma addBlock_keeps_valid (self : Blockchain) (now : Z) (block : Block.t) :
  heightMatchesLength self ->
  validateChain self = Resolved (VString chainIsValid) ->
  validateChain (snd (_addBlock self now block)) = Resolved (VString chainIsValid)
  /\ fst (_addBlock self now block) <> Pending.
Proof.
  intros Hlen Hvalid.
  destruct (valid_noViolations self Hvalid) as [Hrange _].
  unfold _addBlock.
  destruct (assignFields self now block) as [b|] eqn:Hb;
    [|split; [exact Hvalid | discriminate]].
  pose proof (commit_heightsInRange self now block b Hlen Hrange Hb) as Hrange'.
  pose proof (validateChain_inRange _ Hrange') as E.
  destruct (0 <? List.length (allViolations (commit self b)))%nat eqn:Hlog;
    rewrite E; simpl.
  - rewrite Hlog. simpl. rewrite rollback_commit.
    split; [exact Hvalid | discriminate].
  - split; [exact E | discriminate].
Qed.

Lemma after_keeps_valid (self : Blockchain) (c : Call) :
  heightMatchesLength self ->
  validateChain self = Resolved (VString chainIsValid) ->
  validateChain (after self c) = Resolved (VString chainIsValid).
Proof.
  intros Hlen Hvalid.
  destruct c as [now| |now block| | now now' address msg signature st| | | |];
    simpl; try exact Hvalid.
  - unfold initializeChain. destruct (height self =? -1); [|exact Hvalid].
    now apply addBlock_keeps_valid.
  - now apply addBlock_keeps_valid.
  - unfold submitStar, verifyAndAdd.
    destruct (expired now msg); [exact Hvalid|].
    destruct (bitcoinMessage_verify msg address signature) as [[|]|e];
      try exact Hvalid.
    now apply addBlock_keeps_valid.
Qed.

(** Every reachable ledger validates, so its blocks name heights the chain
    holds and its validation settles. *)
Lemma reachable_valid (self : Blockchain) :
  reachable self ->
  heightMatchesLength self
  /\ validateChain self = Resolved (VString chainIsValid)
  /\ heightsInRange self.
Proof.
  intro H.
  assert (Hboth : heightMatchesLength self
                  /\ validateChain self = Resolved (VString chainIsValid)).
  { induction H as [now|self c _ [Hlen Hvalid]].
    - split; [now rewrite Blockchain_new_genesis | apply Blockchain_new_valid].
    - split; [now apply after_heightMatchesLength | now apply after_keeps_valid]. }
  destruct Hboth as [Hlen Hvalid]. repeat split; try assumption.
  now apply valid_noViolations.
Qed.

(** *** Lookups *)

Lemma filter_nil_iff {A : Type} (f : A -> bool) (l : list A) :
  filter f l = [] <-> forall a, In a l -> f a = false.
Proof.
  induction l as [|x l IH]; simpl.
  - split; [intros _ a [] | reflexivity].
  - destruct (f x) eqn:E; split.
    + discriminate.
    + intro H. specialize (H x (or_introl eq_refl)). congruence.
    + intros H a [<-|Ha]; [exact E | now apply IH].
    + intro H. apply IH. intros a Ha. apply H. now right.
Qed.

(** The head of a filtered list is the first element that passes. *)
Lemma filter_head {A : Type} (f : A -> bool) (l : list A) (a : A) (rest : list A) :
  filter f l = a :: rest ->
  In a l /\ f a = true
  /\ exists before after, l = before ++ a :: after
       /\ forall x, In x before -> f x = false.
Proof.
  induction l as [|x l IH]; simpl; [discriminate|].
  destruct (f x) eqn:E.
  - intro H. injection H as -> _. repeat split; auto.
    exists [], l. split; [reflexivity | intros ? []].
  - intro H. destruct (IH H) as (Hin & Hf & before & after & -> & Hb).
    repeat split; auto.
    exists (x :: before), after. split; [reflexivity|].
    intros y [<-|Hy]; auto.
Qed.

Lemma firstOr_miss (sentinel : string) (f : Block.t -> bool) (bs : list Block.t) :
  (forall b, In b bs -> f b = false) ->
  firstOr sentinel (filter f bs) = Resolved (VString sentinel).
Proof.
  intro H. apply filter_nil_iff in H. now rewrite H.
Qed.

Lemma firstOr_hit (sentinel : string) (f : Block.t -> bool) (bs : list Block.t)
    (b : Block.t) :
  In b bs -> f b = true ->
  exists b', firstOr sentinel (filter f bs) = Resolved (VBlock b')
    /\ In b' bs /\ f b' = true
    /\ firstWith f bs b'
    /\ ((forall c, In c bs -> f c = true -> c = b) -> b' = b).
Proof.
  intros Hin Hf.
  destruct (filter f bs) as [|b' rest] eqn:E.
  - pose proof (proj1 (filter_nil_iff f bs) E b Hin). congruence.
  - destruct (filter_head f bs b' rest E)
      as (Hin' & Hf' & before & behind & Hsplit & Hbefore).
    exists b'. simpl. repeat split; auto.
    exists before, behind. auto.
Qed.

(** In a reachable ledger every block sits at the position its height
    names, so a lookup by the height of a block of the chain resolves with
    that very block. *)
Lemma addBlock_ledger_cases (self : Blockchain) (now : Z) (block : Block.t) :
  snd (_addBlock self now block) = self
  \/ exists b, assignFields self now block = Some b
       /\ snd (_addBlock self now block) = commit self b.
Proof.
  unfold _addBlock.
  destruct (assignFields self now block) as [b|]; [|now left].
  destruct (validateChain (commit self b)) as [v|e|]; simpl; eauto.
  destruct (isNonEmptyArray v); simpl; eauto.
  left. apply rollback_commit.
Qed.

Lemma commit_heightsArePositions (self : Blockchain) (now : Z) (block b : Block.t) :
  heightMatchesLength self -> heightsArePositions self ->
  assignFields self now block = Some b ->
  heightsArePositions (commit self b).
Proof.
  intros Hlen Hpos Hb i c. simpl. unfold push.
  destruct (assignFields_fields _ _ _ _ Hb) as (Hheight & _).
  destruct (Nat.lt_ge_cases i (List.length (chain self))) as [Hlt|Hge].
  - rewrite nth_error_app1 by exact Hlt. apply Hpos.
  - rewrite nth_error_app2 by exact Hge.
    destruct (i - List.length (chain self))%nat as [|k] eqn:E; simpl.
    + intro H. injection H as <-. unfold heightMatchesLength in Hlen. lia.
    + destruct k; discriminate.
Qed.

Lemma after_heightsArePositions (self : Blockchain) (c : Call) :
  heightMatchesLength self -> heightsArePositions self ->
  heightsArePositions (after self c).
Proof.
  intros Hlen Hpos.
  assert (Hadd : forall now block,
             heightsArePositions (snd (_addBlock self now block))).
  { intros now block.
    destruct (addBlock_ledger_cases self now block) as [->|(b & Hb & ->)];
      [exact Hpos | now apply (commit_heightsArePositions self now block)]. }
  destruct c as [now| |now block| | now now' address msg signature st| | | |];
    simpl; try exact Hpos.
  - unfold initializeChain. destruct (height self =? -1); [apply Hadd | exact Hpos].
  - apply Hadd.
  - unfold submitStar, verifyAndAdd.
    destruct (expired now msg); [exact Hpos|].
    destruct (bitcoinMessage_verify msg address signature) as [[|]|e];
      try exact Hpos.
    apply Hadd.
Qed.

Lemma reachable_heightsArePositions (self : Blockchain) :
  reachable self -> heightsArePositions self.
Proof.
  intro H.
  assert (Hboth : heightMatchesLength self /\ heightsArePositions self).
  { induction H as [now|self c _ [Hlen Hpos]].
    - split.
      + apply initializeChain_heightMatchesLength, empty_heightMatchesLength.
      + apply (after_heightsArePositions (mkBlockchain [] (-1))
                 (CallInitializeChain now)); [reflexivity|].
        intros [|i] b; discriminate.
    - split; [now apply after_heightMatchesLength
             | now apply after_heightsArePositions]. }
  apply Hboth.
Qed.

Lemma reachable_getBlockByHeight (self : Blockchain) (b : Block.t) :
  reachable self -> In b (chain self) ->
  getBlockByHeight self (Block.height b) = Resolved (VBlock b).
Proof.
  intros Hreach Hb.
  pose proof (reachable_heightsArePositions self Hreach) as Hpos.
  destruct (firstOr_hit noBlockAtHeight (fun p => Block.height p =? Block.height b)
              (chain self) b Hb (Z.eqb_refl _)) as (b' & E & _ & _ & _ & Hu).
  unfold getBlockByHeight. rewrite E. do 2 f_equal. apply Hu.
  intros c Hc Hh. apply Z.eqb_eq in Hh.
  apply In_nth_error in Hb as [i Hi]. apply In_nth_error in Hc as [j Hj].
  pose proof (Hpos i b Hi). pose proof (Hpos j c Hj).
  assert (i = j) by lia. subst j. congruence.
Qed.

(** *** Stars *)

Lemma all_skips_genesis (address : string) (bs : list Block.t) :
  address <> EmptyString ->
  match all bs, all (filter aboveGenesis bs) with
  | inl e, inl e' => e = e'
  | inr entries, inr entries' =>
      filter (ownedBy address) entries = filter (ownedBy address) entries'
  | _, _ => False
  end.
Proof.
  intro Ha. induction bs as [|b bs IH]; simpl; [reflexivity|].
  destruct (aboveGenesis b) eqn:E; simpl; unfold starEntry;
    unfold aboveGenesis in E; rewrite E.
  - destruct (getBData b) as [e|data]; [reflexivity|].
    destruct (all bs) as [e|entries], (all (filter aboveGenesis bs)) as [e'|entries'];
      try contradiction; [exact IH|].
    simpl. now rewrite IH.
  - destruct (all bs) as [e|entries], (all (filter aboveGenesis bs)) as [e'|entries'];
      try contradiction; [exact IH|].
    simpl. unfold ownedBy at 1. simpl.
    destruct address as [|c address]; [congruence | exact IH].
Qed.

Lemma getStarsByWalletAddress_skips_genesis (self : Blockchain) (address : string) :
  address <> EmptyString ->
  getStarsByWalletAddress self address
  = getStarsByWalletAddress
      (mkBlockchain (filter aboveGenesis (chain self)) (height self)) address.
Proof.
  intro Ha. unfold getStarsByWalletAddress. simpl.
  pose proof (all_skips_genesis address (chain self) Ha) as H.
  destruct (all (chain self)) as [e|entries],
           (all (filter aboveGenesis (chain self))) as [e'|entries'];
    try contradiction; [now subst|].
  fold (ownedBy address). now rewrite H.
Qed.

(** Whenever the chain holds a block at height 0 or below and the payloads
    above it decode, the stars of the empty address include the entry that
    stands for that block. *)
Lemma all_keeps_genesisEntry (bs : list Block.t) (g : Block.t)
    (entries : list StarEntry) :
  In g bs -> Block.height g <= 0 -> all bs = inr entries ->
  In genesisEntry (filter (ownedBy EmptyString) entries).
Proof.
  revert entries. induction bs as [|b bs IH]; intros entries Hin Hg; simpl;
    [contradiction|].
  destruct (starEntry b) as [e|entry] eqn:Eb; [discriminate|].
  destruct (all bs) as [e|rest]; [discriminate|].
  intro H. injection H as <-. simpl.
  destruct Hin as [->|Hin].
  - unfold starEntry in Eb.
    destruct (Z.ltb_spec 0 (Block.height g)) as [|_]; [lia|].
    injection Eb as <-. simpl. now left.
  - specialize (IH rest Hin Hg eq_refl).
    destruct (ownedBy EmptyString entry); [now right | exact IH].
Qed.

(** A fresh ledger answers the empty address with the placeholder alone,
    not with the message that the address owns no stars. *)
Lemma fresh_ledger_empty_address (now : Z) :
  getStarsByWalletAddress (Blockchain_new now) EmptyString
  = Resolved (VStars [genesisEntry]).
Proof. now rewrite Blockchain_new_genesis. Qed.

(** *** The freshness test *)

Lemma currentTime_seconds (now : Z) :
  1000 <= now -> currentTime now = Some (now / 1000).
Proof.
  intro H. unfold currentTime.
  rewrite JSFacts.timeString_seconds by exact H.
  apply JSFacts.parseInt_Number_toString.
  apply Z.div_pos; lia.
Qed.

Lemma appended_heightMatchesLength (n : nat) (self : Blockchain) :
  appended n self -> heightMatchesLength self.
Proof.
  induction 1 as [now|n self self' now block v _ IH Hadd].
  - now rewrite Blockchain_new_genesis.
  - replace self' with (snd (_addBlock self now block)) by now rewrite Hadd.
    now apply addBlock_heightMatchesLength.
Qed.

(** A fresh challenge with a good signature is admitted at the next
    height, on every ledger grown by successful appends. *)
Lemma submitStar_resolves (n : nat) (self : Blockchain) (now now' : Z)
    (address message signature : string) (star : Star) :
  appended n self ->
  expired now message = false ->
  bitcoinMessage_verify message address signature = Returns true ->
  exists b,
    submitStar self now now' address message signature star
    = (Resolved (VBlock b), commit self b)
    /\ Block.height b = Z.of_nat n + 1
    /\ appended (S n) (commit self b).
Proof.
  intros Happ Hfresh Hsig.
  destruct (appended_valid n self Happ) as [Hvalid Hheight].
  pose proof (appended_heightMatchesLength n self Happ) as Hlen.
  destruct (addBlock_draft_resolves self now'
              (Block_new (DataStar address message star)) Hlen Hvalid eq_refl)
    as [b Hb].
  exists b. unfold submitStar, verifyAndAdd. rewrite Hfresh, Hsig.
  split; [exact Hb|].
  destruct (addBlock_resolved _ _ _ _ _ Hb) as (b' & Hassign & Hv & _).
  injection Hv as <-.
  destruct (assignFields_fields _ _ _ _ Hassign) as (Hh & _).
  split; [lia|].
  eapply appended_more; eauto.
Qed.

(** ** The claims *)

(** C1 (as amended). Given a block object that the chain does not hold,
    when the validation that [_addBlock] runs right after the tentative
    commit reports one or more violations, the promise is rejected with that
    violation list and the ledger is the one before the append: the block
    just pushed is popped and the height is restored. *)
Theorem addBlock_rollback_restores_ledger (self : Blockchain) (now : Z)
    (block block' : Block.t) (errorLog : list Violation) :
  ~ In block (chain self) ->
  assignFields self now block = Some block' ->
  validateChain (commit self block') = Resolved (VErrorLog errorLog) ->
  errorLog <> []
  /\ _addBlock self now block = (Rejected (VErrorLog errorLog), self)
  /\ chain (snd (_addBlock self now block)) = chain self
  /\ height (snd (_addBlock self now block)) = height self.
Proof.
  intros _ Hassign Hlog.
  pose proof (validateChain_errorLog _ _ Hlog) as Hne.
  assert (E : _addBlock self now block = (Rejected (VErrorLog errorLog), self)).
  { unfold _addBlock. rewrite Hassign, Hlog, Hne.
    now rewrite rollback_commit. }
  rewrite E. repeat split.
  simpl in Hne. now apply length_pos_iff.
Qed.

(** C2. A freshly constructed ledger has height 0, holds the genesis block
    alone, that block has no previous hash, and validation reports no
    violation; after any [n] successful appends onto a fresh ledger,
    validation reports no violation and the height is [n]. *)
Theorem fresh_and_appended_ledgers_are_valid :
  (forall now,
      height (Blockchain_new now) = 0
      /\ chain (Blockchain_new now) = [genesis now]
      /\ Block.previousBlockHash (genesis now) = None
      /\ validateChain (Blockchain_new now) = Resolved (VString chainIsValid)
      /\ allViolations (Blockchain_new now) = [])
  /\ (forall n self,
         appended n self ->
         validateChain self = Resolved (VString chainIsValid)
         /\ allViolations self = []
         /\ height self = Z.of_nat n).
Proof.
  split.
  - intro now.
    pose proof (valid_noViolations _ (Blockchain_new_valid now)) as [_ Hnone].
    rewrite Hnone, Blockchain_new_genesis. repeat split.
    apply genesis_ledger_valid.
  - intros n self H. destruct (appended_valid n self H) as [Hvalid Hheight].
    repeat split; try assumption. now apply valid_noViolations.
Qed.

(** C3. The hash that [_addBlock] stores in an appended block is the SHA-256
    digest of the serialization of that block with its hash field unset, the
    other fields being the assigned height, time and previous hash and the
    payload of the draft. *)
Theorem addBlock_hash_excludes_hash_field (self self' : Blockchain) (now : Z)
    (block b : Block.t) :
  Block.hash block = None ->
  _addBlock self now block = (Resolved (VBlock b), self') ->
  Block.hash b = Some (SHA256 (JSON_stringify (Block.set_hash None b)))
  /\ Block.set_hash None b
     = Block.mk None (height self + 1) (Block.body block) (JS.timeString now)
         (if 0 <=? height self
          then match _getLatestBlock self with
               | Some latest => Block.hash latest
               | None => None
               end
          else Block.previousBlockHash block)
  /\ chain self' = chain self ++ [b].
Proof.
  intros Hdraft Hadd.
  destruct (addBlock_resolved _ _ _ _ _ Hadd) as (b' & Hassign & Hv & -> & _).
  injection Hv as <-.
  destruct (assignFields_fields _ _ _ _ Hassign)
    as (Hh & Ht & Hb & Hprev & Hprev' & Hhash).
  split; [now apply Hhash|]. split; [|reflexivity].
  destruct b as [h0 h1 h2 h3 h4]. simpl in *. unfold Block.set_hash. simpl.
  subst h1 h2 h3. f_equal.
  destruct (Z.leb_spec 0 (height self)) as [Hpos|Hneg].
  - destruct (Hprev Hpos) as (latest & -> & ->). reflexivity.
  - now apply Hprev'.
Qed.

(** C4 (as amended). On a consistent ledger (every block above height 0
    stores as previous hash the hash stored in the block one height below,
    and every block validates itself) [validateChain] resolves with the
    string ["The chain is valid, no error occurred"], not with an empty list.
    On an inconsistent ledger whose blocks name heights the chain holds it
    resolves with a list that carries every violation and nothing else: for
    every block whose link fails the entry ["The chain is broken at this
    height: "] followed by its height, with the block, and for every block
    that fails its own check the entry ["The block is not valid at height: "]
    followed by its height, with the block.  On any other ledger the promise
    never settles. *)
Theorem validateChain_reports_every_violation (self : Blockchain) :
  (consistent self ->
   validateChain self
   = Resolved (VString "The chain is valid, no error occurred")
   /\ allViolations self = [])
  /\ (heightsInRange self -> ~ consistent self ->
      exists errorLog,
        validateChain self = Resolved (VErrorLog errorLog)
        /\ errorLog <> []
        /\ (forall b, In b (chain self) ->
             (linkMatches self b = false ->
              In (mkViolation
                    ("The chain is broken at this height: "
                     ++ JS.Number_toString (Block.height b)) b) errorLog)
             /\ (validate b = false ->
                 In (mkViolation
                       ("The block is not valid at height: "
                        ++ JS.Number_toString (Block.height b)) b) errorLog))
        /\ (forall v, In v errorLog ->
             exists b, In b (chain self)
               /\ ((v = mkViolation
                          ("The chain is broken at this height: "
                           ++ JS.Number_toString (Block.height b)) b
                    /\ linkMatches self b = false)
                   \/ (v = mkViolation
                             ("The block is not valid at height: "
                              ++ JS.Number_toString (Block.height b)) b
                       /\ validate b = false))))
  /\ (~ heightsInRange self -> validateChain self = Pending).
Proof.
  split; [|split].
  - intro Hc.
    rewrite (validateChain_inRange self (consistent_heightsInRange self Hc)).
    apply allViolations_nil in Hc. rewrite Hc. now split.
  - intros Hrange Hc. rewrite (validateChain_inRange self Hrange).
    assert (Hne : allViolations self <> [])
      by (intro E; apply Hc; now apply allViolations_nil).
    pose proof (proj2 (length_pos_iff _) Hne) as Hpos. rewrite Hpos.
    exists (allViolations self). split; [reflexivity|]. split; [exact Hne|].
    split.
    + intros b Hin.
      split; intro Hb; unfold allViolations; apply in_flat_map; exists b;
        (split; [assumption|]);
        unfold violationsOf; rewrite Hb; apply in_or_app; simpl; auto.
    + intros v Hv. unfold allViolations in Hv.
      apply in_flat_map in Hv as (b & Hin & Hv). exists b.
      split; [exact Hin|]. unfold violationsOf in Hv.
      destruct (linkMatches self b), (validate b); simpl in Hv;
        intuition (subst; auto).
  - apply validateChain_pending_iff.
Qed.

(** C5 (the code at the failing input). Asked for the stars of the empty
    address, a ledger that holds a block at height 0 and whose payloads
    decode answers with a list that includes the empty placeholder standing
    for that block: the genesis block is not left out of what the caller
    sees. *)
Theorem getStarsByWalletAddress_empty_address_shows_genesis (self : Blockchain)
    (g : Block.t) (entries : list StarEntry) :
  In g (chain self) -> Block.height g <= 0 -> all (chain self) = inr entries ->
  getStarsByWalletAddress self EmptyString
  = Resolved (VStars (filter (ownedBy EmptyString) entries))
  /\ In genesisEntry (filter (ownedBy EmptyString) entries).
Proof.
  intros Hin Hg Hall.
  pose proof (all_keeps_genesisEntry _ _ _ Hin Hg Hall) as Hentry.
  split; [|exact Hentry].
  unfold getStarsByWalletAddress. rewrite Hall. fold (ownedBy EmptyString).
  destruct (filter (ownedBy EmptyString) entries); [contradiction | reflexivity].
Qed.

(** C6. From one second after the epoch on, when the whole seconds of the
    clock minus the integer parsed from the second colon-delimited field of
    the message is 300 or more, [submitStar] rejects with the expiry message
    and leaves the ledger as it was. *)
Theorem submitStar_expired_challenge_rejected (self : Blockchain) (now now' : Z)
    (address message signature : string) (star : Star) (time : Z) :
  1000 <= now ->
  messageTime message = Some time ->
  300 <= now / 1000 - time ->
  submitStar self now now' address message signature star
  = (Rejected (VString challengeExpired), self).
Proof.
  intros Hnow Htime Hold. unfold submitStar, expired.
  rewrite (currentTime_seconds now Hnow), Htime.
  now rewrite (proj2 (Z.leb_le _ _) Hold).
Qed.

(** C7. Past the freshness test, [submitStar] rejects with the validation
    message when the signature check returns false, and with the message of
    the error when the check throws; in both cases the ledger, and so its
    height, is unchanged. *)
Theorem submitStar_bad_signature_rejected (self : Blockchain) (now now' : Z)
    (address message signature : string) (star : Star) :
  expired now message = false ->
  (bitcoinMessage_verify message address signature = Returns false ->
   submitStar self now now' address message signature star
   = (Rejected (VString validationFailed), self))
  /\ (forall e_message,
         bitcoinMessage_verify message address signature = Throws e_message ->
         submitStar self now now' address message signature star
         = (Rejected (VString e_message), self)).
Proof.
  intro Hfresh. unfold submitStar, verifyAndAdd. rewrite Hfresh.
  split; [intros -> | intros e ->]; reflexivity.
Qed.

(** C8 (as amended). A lookup that misses resolves with a sentinel string:
    [getBlockByHash] with ["There's no block with this hash"],
    [getBlockByHeight] with ["No block at this height"].  A lookup that hits
    resolves with the first block of the chain with that hash or height,
    which is the matching block itself when it is the only one. *)
Theorem lookup_resolves_block_or_sentinel_string (self : Blockchain) :
  (forall hash,
      (forall b, In b (chain self) -> Block.hash b <> Some hash) ->
      getBlockByHash self hash = Resolved (VString noBlockWithHash))
  /\ (forall h,
         (forall b, In b (chain self) -> Block.height b <> h) ->
         getBlockByHeight self h = Resolved (VString noBlockAtHeight))
  /\ (forall hash b,
         In b (chain self) -> Block.hash b = Some hash ->
         exists b', getBlockByHash self hash = Resolved (VBlock b')
           /\ In b' (chain self) /\ Block.hash b' = Some hash
           /\ firstWith (fun c => option_string_eqb (Block.hash c) (Some hash))
                (chain self) b'
           /\ ((forall c, In c (chain self) -> Block.hash c = Some hash -> c = b)
               -> b' = b))
  /\ (forall h b,
         In b (chain self) -> Block.height b = h ->
         exists b', getBlockByHeight self h = Resolved (VBlock b')
           /\ In b' (chain self) /\ Block.height b' = h
           /\ firstWith (fun c => Block.height c =? h) (chain self) b'
           /\ ((forall c, In c (chain self) -> Block.height c = h -> c = b)
               -> b' = b)).
Proof.
  unfold getBlockByHash, getBlockByHeight. repeat split.
  - intros hash H. apply firstOr_miss. intros b Hb.
    destruct (option_string_eqb (Block.hash b) (Some hash)) eqn:E;
      [|reflexivity].
    apply option_string_eqb_eq in E. now apply H in Hb.
  - intros h H. apply firstOr_miss. intros b Hb.
    apply Z.eqb_neq. now apply H.
  - intros hash b Hb Hh.
    destruct (firstOr_hit noBlockWithHash
                (fun b => option_string_eqb (Block.hash b) (Some hash))
                (chain self) b Hb) as (b' & E & Hin & Hf & Hfirst & Hu).
    { now apply option_string_eqb_eq. }
    exists b'. repeat split; auto.
    + now apply option_string_eqb_eq.
    + intro U. apply Hu. intros c Hc Hfc. apply U; auto.
      now apply option_string_eqb_eq.
  - intros h b Hb Hh.
    destruct (firstOr_hit noBlockAtHeight (fun p => Block.height p =? h)
                (chain self) b Hb) as (b' & E & Hin & Hf & Hfirst & Hu).
    { now apply Z.eqb_eq. }
    exists b'. repeat split; auto.
    + now apply Z.eqb_eq.
    + intro U. apply Hu. intros c Hc Hfc. apply U; auto.
      now apply Z.eqb_eq.
Qed.

(** C9. In every ledger reachable from a fresh one by calls of the methods
    (initialization, appends that succeed or are rolled back, submissions,
    queries, validation), the stored height is the number of blocks in the
    chain minus one. *)
Theorem reachable_height_is_length_minus_one (self : Blockchain) :
  reachable self ->
  height self = Z.of_nat (List.length (chain self)) - 1.
Proof.
  induction 1 as [now|self c _ IH].
  - apply initializeChain_heightMatchesLength, empty_heightMatchesLength.
  - now apply after_heightMatchesLength.
Qed.

(** C10. When the second colon-delimited field of the message does not parse
    as an integer, the freshness test is false whatever the clock reads, and
    [submitStar] does what its signature check and append do: it rejects
    with the validation message or the message of a thrown error, or
    appends. *)
Theorem submitStar_unparsed_time_goes_to_verification (self : Blockchain)
    (now now' : Z) (address message signature : string) (star : Star) :
  messageTime message = None ->
  expired now message = false
  /\ submitStar self now now' address message signature star
     = verifyAndAdd self now' address message signature star
  /\ submitStar self now now' address message signature star
     = match bitcoinMessage_verify message address signature with
       | Returns true =>
           _addBlock self now' (Block_new (DataStar address message star))
       | Returns false => (Rejected (VString validationFailed), self)
       | Throws e_message => (Rejected (VString e_message), self)
       end.
Proof.
  intro Hnan.
  assert (E : expired now message = false).
  { unfold expired. rewrite Hnan. now destruct (currentTime now). }
  unfold submitStar. rewrite E. repeat split.
Qed.


(** ** Beyond the claims *)

(** *** The challenge and its time *)

Lemma split_nonempty (sep : ascii) (s : string) : JS.split sep s <> [].
Proof.
  induction s as [|c s IH]; simpl; [discriminate|].
  destruct (Ascii.eqb c sep); [discriminate|].
  destruct (JS.split sep s); [contradiction | discriminate].
Qed.

(** Splitting at a separator that is written between two strings splits
    both. *)
Lemma split_append (sep : ascii) (a r : string) :
  JS.split sep (a ++ String sep r) = JS.split sep a ++ JS.split sep r.
Proof.
  induction a as [|c a IH]; simpl.
  - now rewrite Ascii.eqb_refl.
  - destruct (Ascii.eqb c sep); [now rewrite IH|].
    rewrite IH. pose proof (split_nonempty sep a) as Hne.
    destruct (JS.split sep a) as [|p ps]; [contradiction | reflexivity].
Qed.

Lemma split_without (sep : ascii) (s : string) :
  contains sep s = false -> JS.split sep s = [s].
Proof.
  induction s as [|c s IH]; simpl; [reflexivity|].
  intro H. apply orb_false_iff in H as [Hc Hs].
  rewrite Hc, (IH Hs). reflexivity.
Qed.

Lemma split_with (sep : ascii) (s : string) :
  contains sep s = true ->
  exists p q rest, JS.split sep s = p :: q :: rest.
Proof.
  induction s as [|c s IH]; simpl; [discriminate|].
  destruct (Ascii.eqb c sep); simpl.
  - intros _. pose proof (split_nonempty sep s) as Hne.
    destruct (JS.split sep s) as [|q rest]; [contradiction|]. eauto.
  - intro H. destruct (IH H) as (p & q & rest & ->). eauto.
Qed.

Lemma allDecimal_without_colon (s : string) :
  JS.allDecimal s = true -> contains ":" s = false.
Proof.
  induction s as [|c s IH]; simpl; [reflexivity|].
  intro H. apply andb_true_iff in H as [Hc Hs]. rewrite (IH Hs), orb_false_r.
  destruct (Ascii.eqb_spec c ":") as [->|]; [discriminate Hc | reflexivity].
Qed.

Lemma expired_iff (now : Z) (message : string) (time : Z) :
  1000 <= now -> messageTime message = Some time ->
  (expired now message = true <-> 300 <= now / 1000 - time).
Proof.
  intros Hnow Htime. unfold expired.
  rewrite (currentTime_seconds now Hnow), Htime. apply Z.leb_le.
Qed.

(** The time field of a challenge issued to an address without a colon. *)
Lemma challenge_messageTime (address : string) (now : Z) :
  contains ":" address = false -> 1000 <= now ->
  messageTime (address ++ ":" ++ JS.timeString now ++ ":starRegistry")
  = Some (now / 1000).
Proof.
  intros Ha Hnow. unfold messageTime.
  assert (Hq : 0 <= now / 1000) by (apply Z.div_pos; lia).
  destruct (JSFacts.Number_toString_parseDigits (now / 1000) Hq) as (Hall & _ & _).
  rewrite JSFacts.timeString_seconds by exact Hnow.
  change (address ++ ":" ++ JS.Number_toString (now / 1000) ++ ":starRegistry")%string
    with (address ++ String ":" (JS.Number_toString (now / 1000) ++ String ":" "starRegistry"))%string.
  rewrite split_append, (split_without ":" address Ha).
  rewrite split_append, (split_without ":" _ (allDecimal_without_colon _ Hall)).
  simpl. now apply JSFacts.parseInt_Number_toString.
Qed.

(** X1. From one second after the epoch on, the current time of the
    freshness test is the whole seconds of the clock, and a message whose
    time field parses is expired exactly when those seconds minus the parsed
    time are 300 or more: a time field in the future is always fresh. *)
Theorem freshness_test_counts_whole_seconds (now : Z) :
  1000 <= now ->
  currentTime now = Some (now / 1000)
  /\ forall message time,
       messageTime message = Some time ->
       (expired now message = true <-> 300 <= now / 1000 - time)
       /\ (now / 1000 <= time -> expired now message = false).
Proof.
  intro Hnow. split; [now apply currentTime_seconds|].
  intros message time Htime.
  pose proof (expired_iff now message time Hnow Htime) as Hiff.
  split; [exact Hiff|].
  intro Hfuture. destruct (expired now message); [|reflexivity].
  assert (300 <= now / 1000 - time) by now apply Hiff. lia.
Qed.

(** X2. The challenge that [requestMessageOwnershipVerification] issues to an
    address without a colon carries the whole seconds of its clock reading:
    [submitStar] reads them back from it, and finds it expired exactly when
    300 whole seconds or more have passed. *)
Theorem challenge_round_trip (address message : string) (now now2 : Z) :
  contains ":" address = false ->
  1000 <= now -> 1000 <= now2 ->
  requestMessageOwnershipVerification address now = Resolved (VString message) ->
  messageTime message = Some (now / 1000)
  /\ (expired now2 message = true <-> 300 <= now2 / 1000 - now / 1000).
Proof.
  intros Ha Hnow Hnow2 Hreq. unfold requestMessageOwnershipVerification in Hreq.
  injection Hreq as <-.
  pose proof (challenge_messageTime address now Ha Hnow) as Htime.
  split; [exact Htime | now apply expired_iff].
Qed.

(** X3. For an address that holds a colon, the time that [submitStar] reads
    from the issued challenge is parsed from the address, whatever the clock
    read when the challenge was issued. *)
Theorem challenge_of_address_with_colon (address message : string) (now : Z) :
  contains ":" address = true ->
  requestMessageOwnershipVerification address now = Resolved (VString message) ->
  messageTime message = messageTime address.
Proof.
  intros Ha Hreq. unfold requestMessageOwnershipVerification in Hreq.
  injection Hreq as <-. unfold messageTime.
  change (address ++ ":" ++ JS.timeString now ++ ":starRegistry")%string
    with (address ++ String ":" (JS.timeString now ++ ":starRegistry"))%string.
  rewrite split_append.
  destruct (split_with ":" address Ha) as (p & q & rest & ->). reflexivity.
Qed.

(** *** Appends *)

(** X4. A call that gives no block object of the chain neither changes nor
    removes a committed block, on any ledger: after it the chain and the
    height are what they were, or the chain has one more block at its end
    and the height is one more. *)
Theorem calls_only_append (self : Blockchain) (c : Call) :
  givesNewBlock self c ->
  (chain (after self c) = chain self /\ height (after self c) = height self)
  \/ exists b,
       chain (after self c) = chain self ++ [b]
       /\ height (after self c) = height self + 1.
Proof.
  intros _.
  assert (Hadd : forall now block,
             (chain (snd (_addBlock self now block)) = chain self
              /\ height (snd (_addBlock self now block)) = height self)
             \/ exists b,
                  chain (snd (_addBlock self now block)) = chain self ++ [b]
                  /\ height (snd (_addBlock self now block)) = height self + 1).
  { intros now block.
    destruct (addBlock_ledger_cases self now block) as [->|(b & _ & ->)];
      [now left | right; now exists b]. }
  destruct c as [now| |now block| | now now' address msg signature st| | | |];
    simpl; try (now left).
  - unfold initializeChain. destruct (height self =? -1); [apply Hadd | now left].
  - apply Hadd.
  - unfold submitStar, verifyAndAdd.
    destruct (expired now msg); [now left|].
    destruct (bitcoinMessage_verify msg address signature) as [[|]|e];
      try (now left).
    apply Hadd.
Qed.

Lemma heightsArePositions_inRange (self : Blockchain) :
  heightsArePositions self -> heightsInRange self.
Proof.
  intros Hpos b Hb _. apply In_nth_error in Hb as [i Hi].
  rewrite (Hpos i b Hi).
  assert (i < List.length (chain self))%nat
    by (apply nth_error_Some; congruence).
  lia.
Qed.

(** On a ledger whose height matches its length and whose blocks sit at
    their heights, an append settles: it resolves with the block pushed, or
    rejects with a non-empty error log and the ledger as it was. *)
Lemma addBlock_settles (self : Blockchain) (now : Z) (block : Block.t) :
  heightMatchesLength self -> heightsArePositions self ->
  (exists b,
      _addBlock self now block = (Resolved (VBlock b), commit self b)
      /\ assignFields self now block = Some b
      /\ validateChain (commit self b) = Resolved (VString chainIsValid))
  \/ (exists errorLog,
         errorLog <> []
         /\ _addBlock self now block = (Rejected (VErrorLog errorLog), self)).
Proof.
  intros Hlen Hpos.
  pose proof (heightsArePositions_inRange self Hpos) as Hrange.
  assert (Hb : exists b, assignFields self now block = Some b).
  { unfold assignFields.
    destruct (Z.leb_spec 0 (height self)) as [Hh|Hh]; [|eauto].
    destruct (latest_of_nonempty self Hlen Hh) as [latest ->]. eauto. }
  destruct Hb as [b Hb].
  pose proof (commit_heightsInRange self now block b Hlen Hrange Hb) as Hrange'.
  pose proof (validateChain_inRange _ Hrange') as E.
  unfold _addBlock. rewrite Hb.
  destruct (0 <? List.length (allViolations (commit self b)))%nat eqn:Hlog;
    rewrite E; simpl.
  - right. exists (allViolations (commit self b)).
    rewrite Hlog, rollback_commit. split; [|reflexivity].
    now apply length_pos_iff.
  - left. exists b. auto.
Qed.

Lemma reachableNew_reachable (self : Blockchain) :
  reachableNew self -> reachable self.
Proof.
  induction 1 as [now|self c _ IH _];
    [apply reachable_new | now apply reachable_after].
Qed.

Lemma reachable_shape (self : Blockchain) :
  reachable self -> heightMatchesLength self /\ heightsArePositions self.
Proof.
  intro H. split; [|now apply reachable_heightsArePositions].
  induction H as [now|self c _ IH].
  - apply initializeChain_heightMatchesLength, empty_heightMatchesLength.
  - now apply after_heightMatchesLength.
Qed.

(** X5. On every ledger reachable by calls that give new blocks, an append
    given a block object that the chain does not hold is all or nothing:
    [_addBlock] resolves with the block it pushed, at the next height and
    with the time of the clock, or it rejects with a non-empty error log and
    leaves the ledger as it was.  It never stays unsettled and never rejects
    with a thrown error. *)
Theorem reachable_addBlock_all_or_nothing (self : Blockchain) (now : Z)
    (block : Block.t) :
  reachableNew self ->
  ~ In block (chain self) ->
  (exists b,
      _addBlock self now block = (Resolved (VBlock b), commit self b)
      /\ Block.height b = height self + 1
      /\ Block.time b = JS.timeString now
      /\ Block.body b = Block.body block)
  \/ (exists errorLog,
         errorLog <> []
         /\ _addBlock self now block = (Rejected (VErrorLog errorLog), self)).
Proof.
  intros H _. apply reachableNew_reachable in H.
  destruct (reachable_shape self H) as [Hlen Hpos].
  destruct (addBlock_settles self now block Hlen Hpos)
    as [(b & E & Hb & _)|Hrej]; [left | now right].
  destruct (assignFields_fields _ _ _ _ Hb) as (Hh & Ht & Hbody & _).
  exists b. auto.
Qed.



(** *** The shape of a reachable chain *)

Lemma nth_error_push (bs : list Block.t) (b c : Block.t) (i : nat) :
  nth_error (push bs b) i = Some c ->
  (i < List.length bs)%nat /\ nth_error bs i = Some c
  \/ i = List.length bs /\ c = b.
Proof.
  unfold push. intro H.
  destruct (Nat.lt_ge_cases i (List.length bs)) as [Hlt|Hge].
  - left. rewrite nth_error_app1 in H by exact Hlt. auto.
  - right. rewrite nth_error_app2 in H by exact Hge.
    destruct (i - List.length bs)%nat as [|k] eqn:E; simpl in H.
    + injection H as <-. split; [lia | reflexivity].
    + destruct k; discriminate.
Qed.

Lemma latest_is_last (self : Blockchain) (i : nat) :
  S i = List.length (chain self) ->
  _getLatestBlock self = nth_error (chain self) i.
Proof.
  intro H. unfold _getLatestBlock, at_index. rewrite <- H.
  destruct (Z.ltb_spec (Z.of_nat (S i) - 1) 0) as [|_]; [lia|].
  f_equal. lia.
Qed.

Lemma commit_linked (self : Blockchain) (now : Z) (block b : Block.t) :
  heightMatchesLength self -> linked self ->
  assignFields self now block = Some b ->
  linked (commit self b).
Proof.
  intros Hlen Hlink Hb i x y Hx Hy.
  change (chain (commit self b)) with (push (chain self) b) in Hx, Hy.
  destruct (assignFields_fields _ _ _ _ Hb) as (_ & _ & _ & Hprev & _).
  apply nth_error_push in Hy as [[Hlt Hy]|[Hi ->]].
  - apply nth_error_push in Hx as [[_ Hx]|[Hi _]]; [|lia].
    now apply (Hlink i).
  - apply nth_error_push in Hx as [[_ Hx]|[Hi' _]]; [|lia].
    destruct Hprev as (latest & Hlatest & ->);
      [unfold heightMatchesLength in Hlen; lia|].
    rewrite (latest_is_last self i Hi) in Hlatest. congruence.
Qed.

Lemma commit_hashed (self : Blockchain) (now : Z) (block b : Block.t) :
  (forall c, In c (chain self) -> Block.hash c <> None) ->
  assignFields self now block = Some b ->
  forall c, In c (chain (commit self b)) -> Block.hash c <> None.
Proof.
  intros Hold Hb c Hc. simpl in Hc. unfold push in Hc.
  apply in_app_or in Hc as [Hc|[<-|[]]]; [now apply Hold|].
  unfold assignFields in Hb.
  destruct (0 <=? height self);
    [destruct (_getLatestBlock self); [|discriminate]|];
    injection Hb as <-; discriminate.
Qed.

Lemma after_linked_hashed (self : Blockchain) (c : Call) :
  heightMatchesLength self ->
  linked self /\ (forall b, In b (chain self) -> Block.hash b <> None) ->
  linked (after self c)
  /\ (forall b, In b (chain (after self c)) -> Block.hash b <> None).
Proof.
  intros Hlen [Hlink Hhash].
  assert (Hadd : forall now block,
             linked (snd (_addBlock self now block))
             /\ (forall b, In b (chain (snd (_addBlock self now block))) ->
                           Block.hash b <> None)).
  { intros now block.
    destruct (addBlock_ledger_cases self now block) as [->|(b & Hb & ->)];
      [now split|].
    split; [now apply (commit_linked self now block)
           | now apply (commit_hashed self now block)]. }
  destruct c as [now| |now block| | now now' address msg signature st| | | |];
    simpl; try (now split).
  - unfold initializeChain. destruct (height self =? -1); [apply Hadd | now split].
  - apply Hadd.
  - unfold submitStar, verifyAndAdd.
    destruct (expired now msg); [now split|].
    destruct (bitcoinMessage_verify msg address signature) as [[|]|e];
      try (now split).
    apply Hadd.
Qed.

(** X8. In every ledger reachable by calls that give new blocks, the blocks
    form a hash chain: the block at position [i] has height [i], every block
    has a hash assigned, and every block above the first stores as previous
    hash the hash stored in the block before it. *)
Theorem reachable_chain_is_linked (self : Blockchain) :
  reachableNew self ->
  heightsArePositions self
  /\ (forall b, In b (chain self) -> Block.hash b <> None)
  /\ linked self.
Proof.
  intro H. apply reachableNew_reachable in H.
  split; [now apply reachable_heightsArePositions|].
  assert (Hboth : heightMatchesLength self
                  /\ linked self
                  /\ (forall b, In b (chain self) -> Block.hash b <> None)).
  { induction H as [now|self c _ (Hlen & Hlink & Hhash)].
    - split; [apply initializeChain_heightMatchesLength, empty_heightMatchesLength|].
      apply (after_linked_hashed (mkBlockchain [] (-1)) (CallInitializeChain now));
        [reflexivity|].
      split; [intros [|i] b c; discriminate | intros b []].
    - split; [now apply after_heightMatchesLength|].
      now apply after_linked_hashed. }
  destruct Hboth as (_ & Hlink & Hhash). now split.
Qed.

(** X9. On every ledger reachable by calls that give new blocks,
    [getBlockByHeight] finds exactly the heights from 0 to the height that
    [getChainHeight] resolves with: for such a height it resolves with the
    block at that position of the chain, and for any other height with the
    sentinel string. *)
Theorem reachable_lookup_by_height (self : Blockchain) (n : Z) :
  reachableNew self ->
  getChainHeight self = Resolved (VNumber n) ->
  (forall h, 0 <= h <= n ->
     exists b, nth_error (chain self) (Z.to_nat h) = Some b
       /\ Block.height b = h
       /\ getBlockByHeight self h = Resolved (VBlock b))
  /\ (forall h, h < 0 \/ n < h ->
        getBlockByHeight self h = Resolved (VString noBlockAtHeight)).
Proof.
  intros H Hn. apply reachableNew_reachable in H.
  unfold getChainHeight in Hn. injection Hn as <-.
  destruct (reachable_shape self H) as [Hlen Hpos].
  unfold heightMatchesLength in Hlen. split.
  - intros h Hh.
    destruct (nth_error (chain self) (Z.to_nat h)) as [b|] eqn:E.
    + exists b. pose proof (Hpos _ _ E) as Hb.
      assert (Hbh : Block.height b = h) by lia.
      repeat split; [exact Hbh|]. rewrite <- Hbh.
      apply reachable_getBlockByHeight; [exact H|].
      now apply nth_error_In in E.
    + apply nth_error_None in E. lia.
  - intros h Hh. unfold getBlockByHeight. apply firstOr_miss.
    intros b Hb. apply Z.eqb_neq.
    apply In_nth_error in Hb as [i Hi]. rewrite (Hpos i b Hi).
    assert (i < List.length (chain self))%nat
      by (apply nth_error_Some; congruence).
    lia.
Qed.

(** X10. After a resolved append the latest block is the one appended, and
    when the ledger had a height its previous hash is the hash stored in the
    block that was the latest before. *)
Theorem resolved_append_becomes_latest (self self' : Blockchain) (now : Z)
    (block b : Block.t) :
  _addBlock self now block = (Resolved (VBlock b), self') ->
  _getLatestBlock self' = Some b
  /\ (0 <= height self ->
      exists latest, _getLatestBlock self = Some latest
        /\ Block.previousBlockHash b = Block.hash latest).
Proof.
  intro Hadd.
  destruct (addBlock_resolved _ _ _ _ _ Hadd) as (b' & Hassign & Hv & -> & _).
  injection Hv as <-.
  destruct (assignFields_fields _ _ _ _ Hassign) as (_ & _ & _ & Hprev & _).
  split; [|exact Hprev].
  rewrite (latest_is_last (commit self b) (List.length (chain self))).
  - simpl. unfold push. rewrite nth_error_app2, Nat.sub_diag by lia. reflexivity.
  - simpl. unfold push. rewrite length_app. simpl. lia.
Qed.

(** *** Validation after damage *)

Lemma violationsOf_commit_old (self : Blockchain) (b c : Block.t) :
  inRange self c ->
  violationsOf (commit self b) c = violationsOf self c.
Proof.
  intro Hc. unfold violationsOf, linkMatches. simpl.
  destruct (Z.ltb_spec 0 (Block.height c)) as [Hpos|_]; [|reflexivity].
  rewrite at_index_push_old by (apply Hc; assumption). reflexivity.
Qed.

(** X11. A ledger that validation finds inconsistent accepts no append: the
    violations of the old blocks are found again after the tentative commit,
    so [_addBlock] rejects with an error log that holds them all and rolls
    back, however sound the new block is. *)
Theorem inconsistent_ledger_rejects_every_append (self : Blockchain) (now : Z)
    (block : Block.t) :
  heightMatchesLength self -> heightsInRange self -> ~ consistent self ->
  exists errorLog,
    _addBlock self now block = (Rejected (VErrorLog errorLog), self)
    /\ errorLog <> []
    /\ forall v, In v (allViolations self) -> In v errorLog.
Proof.
  intros Hlen Hrange Hc.
  assert (Hne : allViolations self <> [])
    by (intro E; apply Hc; now apply allViolations_nil).
  assert (Hh : 0 <= height self).
  { unfold heightMatchesLength in Hlen. unfold allViolations in Hne.
    destruct (chain self); [now contradiction Hne|].
    cbn [List.length] in Hlen. lia. }
  destruct (latest_of_nonempty self Hlen Hh) as [latest Hlatest].
  assert (Hb : exists b, assignFields self now block = Some b).
  { unfold assignFields. rewrite (proj2 (Z.leb_le _ _) Hh), Hlatest. eauto. }
  destruct Hb as [b Hb].
  pose proof (commit_heightsInRange self now block b Hlen Hrange Hb) as Hrange'.
  assert (Hall : allViolations (commit self b)
                 = allViolations self ++ violationsOf (commit self b) b).
  { unfold allViolations. simpl. unfold push. rewrite flat_map_app. simpl.
    rewrite List.app_nil_r. f_equal. apply flat_map_agree.
    intros c Hin. apply violationsOf_commit_old. now apply Hrange. }
  assert (Hne' : allViolations (commit self b) <> []).
  { rewrite Hall. intro E. apply app_eq_nil in E as [E _]. contradiction. }
  exists (allViolations (commit self b)).
  unfold _addBlock. rewrite Hb, (validateChain_inRange _ Hrange').
  rewrite (proj2 (length_pos_iff _) Hne'). simpl.
  rewrite (proj2 (length_pos_iff _) Hne'), rollback_commit.
  repeat split; [exact Hne'|].
  intros v Hv. rewrite Hall. apply in_or_app. now left.
Qed.

Lemma setHashAt_length (i : nat) (h : option string) (bs : list Block.t) :
  List.length (setHashAt i h bs) = List.length bs.
Proof.
  revert i. induction bs as [|b bs IH]; intros [|i]; simpl; auto.
Qed.

Lemma setHashAt_same (i : nat) (h : option string) (bs : list Block.t) (b : Block.t) :
  nth_error bs i = Some b ->
  nth_error (setHashAt i h bs) i = Some (Block.set_hash h b).
Proof.
  revert i. induction bs as [|x bs IH]; intros [|i]; simpl; try discriminate.
  - intro H. now injection H as ->.
  - apply IH.
Qed.

Lemma setHashAt_other (i j : nat) (h : option string) (bs : list Block.t) :
  i <> j -> nth_error (setHashAt i h bs) j = nth_error bs j.
Proof.
  revert i j. induction bs as [|x bs IH]; intros [|i] [|j] Hij; simpl;
    try reflexivity; try congruence.
  apply IH. congruence.
Qed.

Lemma setHashAt_heights (i : nat) (h : option string) (bs : list Block.t)
    (j : nat) (c : Block.t) :
  nth_error (setHashAt i h bs) j = Some c ->
  exists c', nth_error bs j = Some c' /\ Block.height c = Block.height c'.
Proof.
  destruct (Nat.eq_dec i j) as [<-|Hij].
  - destruct (nth_error bs i) as [b|] eqn:E.
    + rewrite (setHashAt_same i h bs b E). intro H. injection H as <-.
      now exists b.
    + intro H. assert (Hlt : (i < List.length (setHashAt i h bs))%nat)
        by (apply nth_error_Some; congruence).
      rewrite setHashAt_length in Hlt. apply nth_error_None in E. lia.
  - rewrite (setHashAt_other i j h bs Hij). intro H. now exists c.
Qed.

(** X12. Validation detects a stored hash changed from outside through the
    link of the next block: on a ledger whose blocks sit at their heights,
    once the hash stored in a block differs from the previous hash stored in
    the block after it, [validateChain] resolves with an error log that
    reports the chain broken at the height of that next block. *)
Theorem changed_hash_breaks_next_link (self : Blockchain) (i : nat)
    (h : option string) (b c : Block.t) :
  heightsArePositions self ->
  nth_error (chain self) i = Some b ->
  nth_error (chain self) (S i) = Some c ->
  h <> Block.previousBlockHash c ->
  exists errorLog,
    validateChain (mkBlockchain (setHashAt i h (chain self)) (height self))
    = Resolved (VErrorLog errorLog)
    /\ In (brokenAt c) errorLog
    /\ Block.height c = Z.of_nat i + 1.
Proof.
  intros Hpos Hb Hc Hh.
  set (self' := mkBlockchain (setHashAt i h (chain self)) (height self)).
  assert (Hpos' : heightsArePositions self').
  { intros j x Hx. unfold self' in Hx. cbn [chain] in Hx.
    destruct (setHashAt_heights _ _ _ _ _ Hx) as (x' & Hx' & ->).
    now apply Hpos. }
  pose proof (heightsArePositions_inRange self' Hpos') as Hrange'.
  assert (Hc' : nth_error (chain self') (S i) = Some c).
  { unfold self'. cbn [chain]. rewrite setHashAt_other by lia. exact Hc. }
  assert (Hheight : Block.height c = Z.of_nat i + 1)
    by (rewrite (Hpos _ _ Hc); lia).
  assert (Hlink : linkMatches self' c = false).
  { unfold linkMatches, at_index. rewrite Hheight.
    destruct (Z.ltb_spec 0 (Z.of_nat i + 1)) as [_|]; [|lia].
    destruct (Z.ltb_spec (Z.of_nat i + 1 - 1) 0) as [|_]; [lia|].
    replace (Z.to_nat (Z.of_nat i + 1 - 1)) with i by lia.
    unfold self'. cbn [chain]. rewrite (setHashAt_same i h _ b Hb).
    cbn [Block.hash Block.set_hash].
    destruct (option_string_eqb (Block.previousBlockHash c) h) eqn:E;
      [|reflexivity].
    apply option_string_eqb_eq in E. congruence. }
  assert (Hin : In (brokenAt c) (allViolations self')).
  { unfold allViolations. apply in_flat_map. exists c.
    split; [now apply nth_error_In in Hc'|].
    unfold violationsOf. rewrite Hlink. now left. }
  exists (allViolations self'). rewrite (validateChain_inRange self' Hrange').
  destruct (allViolations self') as [|v vs]; [contradiction|].
  repeat split; assumption.
Qed.

(** *** Appends in flight *)

(** X13. With appends interleaved at their await, each running its commit
    and later its look at the validation result, the height still is the
    number of blocks minus one, and a rollback always finds a block to pop:
    no more results are awaited than the chain has blocks. *)
Theorem interleaved_appends_keep_height (st : InFlight) :
  flight st ->
  height (ledger st) = Z.of_nat (List.length (chain (ledger st))) - 1
  /\ (List.length (awaited st) <= List.length (chain (ledger st)))%nat.
Proof.
  unfold heightMatchesLength.
  induction 1 as [|st now block b _ [IH Hle] Hassign
                  |st before behind errorLog _ [IH Hle] Hawait]; simpl.
  - split; [reflexivity | lia].
  - unfold push. rewrite length_app. simpl. split; lia.
  - rewrite Hawait, length_app in Hle. simpl in Hle. rewrite length_app.
    destruct (isNonEmptyArray errorLog); [|split; [exact IH | lia]].
    simpl. unfold pop. rewrite removelast_firstn_len, length_firstn.
    destruct (chain (ledger st)) as [|x bs]; [simpl in Hle; lia|].
    cbn [List.length Nat.pred] in *. split; lia.
Qed.

(** *** Stars *)

(** X14. For a non-empty address the blocks at height 0 or below play no
    part in [getStarsByWalletAddress]: the call ends as it does on the chain
    without them. *)
Theorem stars_of_nonempty_address_skip_genesis (self : Blockchain) (address : string) :
  address <> EmptyString ->
  getStarsByWalletAddress self address
  = getStarsByWalletAddress
      (mkBlockchain (filter aboveGenesis (chain self)) (height self)) address.
Proof.
  intro Ha. unfold getStarsByWalletAddress. cbn [chain].
  pose proof (all_skips_genesis address (chain self) Ha) as H.
  destruct (all (chain self)) as [e|entries],
           (all (filter aboveGenesis (chain self))) as [e'|entries'];
    try contradiction.
  - now subst.
  - fold (ownedBy address). now rewrite H.
Qed.

Lemma all_inl (bs : list Block.t) (e : string) :
  all bs = inl e ->
  exists b, In b bs /\ 0 < Block.height b /\ getBData b = inl e.
Proof.
  induction bs as [|b bs IH]; simpl; [discriminate|].
  destruct (starEntry b) as [e'|entry] eqn:Eb.
  - intro H. injection H as ->. exists b. unfold starEntry in Eb.
    destruct (Z.ltb_spec 0 (Block.height b)) as [Hpos|_]; [|discriminate].
    destruct (getBData b) as [e''|data]; [|discriminate].
    injection Eb as ->. auto.
  - destruct (all bs) as [e'|entries]; [|discriminate].
    intro H. injection H as ->. destruct (IH eq_refl) as (c & Hc & Hrest).
    exists c. split; [now right | exact Hrest].
Qed.

Lemma all_inr (bs : list Block.t) (entries : list StarEntry) :
  all bs = inr entries ->
  forall b, In b bs -> 0 < Block.height b -> exists data, getBData b = inr data.
Proof.
  revert entries. induction bs as [|b bs IH]; intros entries H c Hc Hpos;
    [contradiction|].
  simpl in H. destruct (starEntry b) as [e|entry] eqn:Eb; [discriminate|].
  destruct (all bs) as [e|rest] eqn:Er; [discriminate|].
  destruct Hc as [->|Hc]; [|now apply (IH rest)].
  unfold starEntry in Eb. rewrite (proj2 (Z.ltb_lt _ _) Hpos) in Eb.
  destruct (getBData c) as [e|data]; [discriminate | eauto].
Qed.

(** X15. One payload above the genesis block that does not decode makes
    [getStarsByWalletAddress] reject for every address, with the message of
    such a failure and whoever owns the block; when all of them decode the
    call never rejects. *)
Theorem undecodable_payload_fails_every_query (self : Blockchain) :
  ((exists b e, In b (chain self) /\ 0 < Block.height b /\ getBData b = inl e) ->
   exists b e, In b (chain self) /\ 0 < Block.height b /\ getBData b = inl e
     /\ forall address,
          getStarsByWalletAddress self address = Rejected (VString e))
  /\ ((forall b, In b (chain self) -> 0 < Block.height b ->
         exists data, getBData b = inr data) ->
      forall address v, getStarsByWalletAddress self address <> Rejected v).
Proof.
  split.
  - intros (b & e & Hb & Hpos & Hbad).
    destruct (all (chain self)) as [e'|entries] eqn:E.
    + destruct (all_inl _ _ E) as (c & Hc & Hcpos & Hcbad).
      exists c, e'. repeat split; try assumption.
      intro address. unfold getStarsByWalletAddress. now rewrite E.
    + destruct (all_inr _ _ E b Hb Hpos) as [data Hdata]. congruence.
  - intros Hgood address v. unfold getStarsByWalletAddress.
    destruct (all (chain self)) as [e|entries] eqn:E.
    + destruct (all_inl _ _ E) as (c & Hc & Hcpos & Hcbad).
      destruct (Hgood c Hc Hcpos) as [data Hdata]. congruence.
    + destruct (0 <? List.length _)%nat; discriminate.
Qed.

(** X16. [getStarsByWalletAddress] never resolves with an empty list: it
    resolves with the message that the address owns no stars, or with a
    list that is not empty and whose entries all have the address as owner. *)
Theorem stars_resolved_are_owned (self : Blockchain) (address : string) (v : Value) :
  getStarsByWalletAddress self address = Resolved v ->
  v = VString ownsNoStars
  \/ exists blocks,
       v = VStars blocks /\ blocks <> []
       /\ forall entry, In entry blocks -> owner entry = Some address.
Proof.
  unfold getStarsByWalletAddress.
  destruct (all (chain self)) as [e|entries]; [discriminate|].
  fold (ownedBy address).
  destruct (0 <? List.length (filter (ownedBy address) entries))%nat eqn:E;
    intro H; injection H as <-; [right | now left].
  exists (filter (ownedBy address) entries). repeat split.
  - now apply length_pos_iff.
  - intros entry Hin. apply filter_In in Hin as [_ Hown].
    now apply option_string_eqb_eq.
Qed.

(** *** The append given a block of the chain *)

Lemma storeAt_length (i : nat) (b : Block.t) (bs : list Block.t) :
  List.length (storeAt i b bs) = List.length bs.
Proof.
  revert i. induction bs as [|x bs IH]; intros [|i]; simpl; auto.
Qed.

Lemma storeAt_same (i : nat) (b x : Block.t) (bs : list Block.t) :
  nth_error bs i = Some x -> nth_error (storeAt i b bs) i = Some b.
Proof.
  revert i. induction bs as [|y bs IH]; intros [|i]; simpl; try discriminate;
    [reflexivity | apply IH].
Qed.

(** X17. Given the very object that the chain holds at an index, [_addBlock]
    rewrites that committed block, whether it then resolves or rejects: on
    a ledger whose height matches its length, the block at that index
    afterwards has the height after the ledger's, which is above its
    position, and the time of the clock, with its payload kept; a rollback
    does not undo it. *)
Theorem addBlock_given_stored_block_rewrites (self : Blockchain) (now : Z)
    (i : nat) (block : Block.t) :
  heightMatchesLength self ->
  nth_error (chain self) i = Some block ->
  exists b,
    nth_error (chain (snd (_addBlock_stored self now i))) i = Some b
    /\ Block.height b = height self + 1
    /\ Z.of_nat i < Block.height b
    /\ Block.time b = JS.timeString now
    /\ Block.body b = Block.body block.
Proof.
  intros Hlen Hi.
  assert (Hlt : (i < List.length (chain self))%nat)
    by (apply nth_error_Some; congruence).
  assert (Hh : 0 <= height self) by (unfold heightMatchesLength in Hlen; lia).
  destruct (latest_of_nonempty self Hlen Hh) as [latest Hlatest].
  assert (Hb : exists b, assignFields self now block = Some b).
  { unfold assignFields. rewrite (proj2 (Z.leb_le _ _) Hh), Hlatest. eauto. }
  destruct Hb as [b Hb].
  destruct (assignFields_fields _ _ _ _ Hb) as (Hheight & Htime & Hbody & _).
  pose proof (storeAt_same i b block (chain self) Hi) as Hstored.
  assert (Hpushed : nth_error (push (storeAt i b (chain self)) b) i = Some b).
  { unfold push. rewrite nth_error_app1 by (rewrite storeAt_length; exact Hlt).
    exact Hstored. }
  exists b. unfold heightMatchesLength in Hlen.
  unfold _addBlock_stored. rewrite Hi, Hb.
  destruct (validateChain
              (commit (mkBlockchain (storeAt i b (chain self)) (height self)) b))
    as [v|e|]; [destruct (isNonEmptyArray v)| |]; cbn [fst snd];
    try rewrite rollback_commit; cbn [chain commit];
    (repeat split; try assumption; try lia; try discriminate).
Qed.

(** The link that the code tests and the link of the specification agree
    wherever the block below validates itself. *)
Lemma links_agree_below_valid_block (self : Blockchain) (b : Block.t) :
  (forall prevB, at_index (chain self) (Block.height b - 1) = Some prevB ->
                 validate prevB = true) ->
  recomputedLinkMatches self b = linkMatches self b.
Proof.
  intro H. unfold recomputedLinkMatches, linkMatches.
  destruct (0 <? Block.height b); [|reflexivity].
  destruct (at_index (chain self) (Block.height b - 1)) as [prevB|];
    [|reflexivity].
  specialize (H prevB eq_refl). unfold validate in H.
  apply option_string_eqb_eq in H. now rewrite <- H.
Qed.

End LedgerFacts.

(** ** The claims on the concrete collaborators *)

#[local] Existing Instance Demo.collaborators.

Lemma addBlock_rollback_restores_ledger_witness :
  ~ In Demo.draft (chain Demo.tampered)
  /\ assignFields Demo.tampered 1700000000123 Demo.draft = Some Demo.tentative
  /\ validateChain (commit Demo.tampered Demo.tentative)
     = Resolved (VErrorLog [invalidAt Demo.tamperedGenesis])
  /\ _addBlock Demo.tampered 1700000000123 Demo.draft
     = (Rejected (VErrorLog [invalidAt Demo.tamperedGenesis]), Demo.tampered).
Proof.
  assert (H0 : ~ In Demo.draft (chain Demo.tampered)).
  { intros [H|[]]. vm_compute in H. discriminate H. }
  assert (H1 : assignFields Demo.tampered 1700000000123 Demo.draft
               = Some Demo.tentative) by (vm_compute; reflexivity).
  assert (H2 : validateChain (commit Demo.tampered Demo.tentative)
               = Resolved (VErrorLog [invalidAt Demo.tamperedGenesis]))
    by (vm_compute; reflexivity).
  split; [exact H0|]. split; [exact H1|]. split; [exact H2|].
  exact (proj1 (proj2 (addBlock_rollback_restores_ledger
                         Demo.tampered 1700000000123 Demo.draft Demo.tentative
                         [invalidAt Demo.tamperedGenesis] H0 H1 H2))).
Defined.

(** C1 (counterexample). Given the object that a ledger with one star holds
    at index 1, the append finds four violations after the tentative commit
    and rejects with them, yet the ledger is not the one before: the
    committed block at index 1 is left rewritten. *)
Lemma addBlock_given_stored_block_rewrites_it :
  nth_error (chain Demo.oneStar) 1 = Some Damaged.starBlock
  /\ _addBlock_stored Demo.oneStar 1700000200000 1
     = (Rejected (VErrorLog [brokenAt Damaged.rewrittenStarBlock;
                             invalidAt Damaged.rewrittenStarBlock;
                             brokenAt Damaged.rewrittenStarBlock;
                             invalidAt Damaged.rewrittenStarBlock]),
        mkBlockchain [genesis 1700000000123; Damaged.rewrittenStarBlock] 1)
  /\ mkBlockchain [genesis 1700000000123; Damaged.rewrittenStarBlock] 1
     <> Demo.oneStar.
Proof.
  split; [vm_compute; reflexivity|]. split; [vm_compute; reflexivity|].
  intro H. vm_compute in H. discriminate H.
Qed.

Lemma one_star_appended : appended 1 Demo.oneStar.
Proof.
  apply (appended_more 0 Demo.fresh Demo.oneStar 1700000100999
           (Block_new (DataStar "addrA" "addrA:1700000000:starRegistry" Demo.star1))
           (VBlock (Block.mk (Some "43844") 1
                      "addrA|addrA:1700000000:starRegistry|dec=+1,ra=5h,story=test"
                      "1700000100" (Some "59517")))).
  - apply appended_fresh.
  - vm_compute; reflexivity.
Defined.

Lemma fresh_and_appended_ledgers_are_valid_witness :
  appended 1 Demo.oneStar
  /\ validateChain Demo.oneStar = Resolved (VString chainIsValid)
  /\ allViolations Demo.oneStar = []
  /\ height Demo.oneStar = 1.
Proof.
  split; [exact one_star_appended|].
  exact (proj2 fresh_and_appended_ledgers_are_valid 1%nat Demo.oneStar
           one_star_appended).
Defined.

Lemma addBlock_hash_excludes_hash_field_witness :
  Block.hash Demo.draft = None
  /\ _addBlock Demo.fresh 1700000100999 Demo.draft
     = (Resolved (VBlock (Block.mk (Some "3416") 1 "x" "1700000100" (Some "59517"))),
        commit Demo.fresh (Block.mk (Some "3416") 1 "x" "1700000100" (Some "59517")))
  /\ Some "3416"
     = Some (SHA256 (JSON_stringify
                       (Block.mk None 1 "x" "1700000100" (Some "59517")))).
Proof.
  assert (H1 : Block.hash Demo.draft = None) by reflexivity.
  assert (H2 : _addBlock Demo.fresh 1700000100999 Demo.draft
     = (Resolved (VBlock (Block.mk (Some "3416") 1 "x" "1700000100" (Some "59517"))),
        commit Demo.fresh (Block.mk (Some "3416") 1 "x" "1700000100" (Some "59517"))))
    by (vm_compute; reflexivity).
  split; [exact H1|]. split; [exact H2|].
  exact (proj1 (addBlock_hash_excludes_hash_field _ _ _ _ _ H1 H2)).
Defined.

Lemma validateChain_reports_every_violation_witness :
  heightsInRange Demo.tampered
  /\ ~ consistent Demo.tampered
  /\ exists errorLog,
       validateChain Demo.tampered = Resolved (VErrorLog errorLog)
       /\ In (mkViolation "The block is not valid at height: 0"
                Demo.tamperedGenesis) errorLog.
Proof.
  assert (H1 : heightsInRange Demo.tampered).
  { intros b [<-|[]]. unfold inRange. simpl. lia. }
  assert (H2 : ~ consistent Demo.tampered).
  { intro H. destruct (H Demo.tamperedGenesis (or_introl eq_refl)) as [_ Hv].
    vm_compute in Hv. discriminate Hv. }
  split; [exact H1|]. split; [exact H2|].
  destruct (proj1 (proj2 (validateChain_reports_every_violation Demo.tampered))
              H1 H2) as (errorLog & Hlog & _ & Hall & _).
  exists errorLog. split; [exact Hlog|].
  apply (Hall Demo.tamperedGenesis (or_introl eq_refl)).
  vm_compute; reflexivity.
Defined.

(** C4 (counterexample). A fresh ledger is consistent and [validateChain]
    resolves with a string, not with an empty result.  On a ledger with a
    block that names a height beyond the chain the promise never settles and
    no list is returned.  On a ledger whose genesis payload was changed, the
    previous hash of the next block is no longer the hash recomputed from
    the genesis block, yet the list holds no broken link. *)
Lemma validateChain_result_counterexample :
  (consistent Demo.fresh
   /\ validateChain Demo.fresh
      = Resolved (VString "The chain is valid, no error occurred"))
  /\ (~ consistent Demo.outOfRange
      /\ validateChain Demo.outOfRange = Pending)
  /\ (recomputedLinkMatches Damaged.payloadChanged Damaged.starBlock = false
      /\ validateChain Damaged.payloadChanged
         = Resolved (VErrorLog
                       [mkViolation "The block is not valid at height: 0"
                          Damaged.changedGenesis])).
Proof.
  split; [|split].
  - split; [|vm_compute; reflexivity].
    intros b Hb. vm_compute in Hb. destruct Hb as [<-|[]].
    split; vm_compute; reflexivity.
  - split; [|vm_compute; reflexivity].
    intro H.
    destruct (H (Block.mk (Some "h") 5 "x" "1700000000" None)
                (or_introl eq_refl)) as [Hlink _].
    vm_compute in Hlink. discriminate Hlink.
  - split; vm_compute; reflexivity.
Qed.

Lemma submitStar_expired_challenge_rejected_witness :
  1000 <= 1700000300000
  /\ messageTime "addrA:1700000000:starRegistry" = Some 1700000000
  /\ 300 <= 1700000300000 / 1000 - 1700000000
  /\ submitStar Demo.fresh 1700000300000 1700000300001
       "addrA" "addrA:1700000000:starRegistry"
       "sig:addrA:1700000000:starRegistry" Demo.star1
     = (Rejected (VString challengeExpired), Demo.fresh).
Proof.
  assert (H1 : 1000 <= 1700000300000) by lia.
  assert (H2 : messageTime "addrA:1700000000:starRegistry" = Some 1700000000)
    by reflexivity.
  assert (H3 : 300 <= 1700000300000 / 1000 - 1700000000)
    by (vm_compute; discriminate).
  repeat (split; [assumption|]).
  exact (submitStar_expired_challenge_rejected Demo.fresh 1700000300000
           1700000300001 "addrA" "addrA:1700000000:starRegistry"
           "sig:addrA:1700000000:starRegistry" Demo.star1 1700000000 H1 H2 H3).
Defined.

Lemma submitStar_bad_signature_rejected_witness :
  expired 1700000100456 "addrA:1700000000:starRegistry" = false
  /\ bitcoinMessage_verify "addrA:1700000000:starRegistry" "addrA" "sig:forged"
     = Returns false
  /\ submitStar Demo.fresh 1700000100456 1700000100999
       "addrA" "addrA:1700000000:starRegistry" "sig:forged" Demo.star1
     = (Rejected (VString validationFailed), Demo.fresh)
  /\ bitcoinMessage_verify "addrA:1700000000:starRegistry" "addrA" EmptyString
     = Throws "Invalid signature length"
  /\ submitStar Demo.fresh 1700000100456 1700000100999
       "addrA" "addrA:1700000000:starRegistry" EmptyString Demo.star1
     = (Rejected (VString "Invalid signature length"), Demo.fresh).
Proof.
  assert (H1 : expired 1700000100456 "addrA:1700000000:starRegistry" = false)
    by (vm_compute; reflexivity).
  split; [exact H1|]. split; [reflexivity|]. split.
  - exact (proj1 (submitStar_bad_signature_rejected Demo.fresh 1700000100456
                    1700000100999 "addrA" "addrA:1700000000:starRegistry"
                    "sig:forged" Demo.star1 H1) eq_refl).
  - split; [reflexivity|].
    exact (proj2 (submitStar_bad_signature_rejected Demo.fresh 1700000100456
                    1700000100999 "addrA" "addrA:1700000000:starRegistry"
                    EmptyString Demo.star1 H1) _ eq_refl).
Defined.

Lemma getStarsByWalletAddress_empty_address_shows_genesis_witness :
  In (genesis 1700000000123) (chain Demo.fresh)
  /\ Block.height (genesis 1700000000123) <= 0
  /\ all (chain Demo.fresh) = inr [genesisEntry]
  /\ getStarsByWalletAddress Demo.fresh EmptyString
     = Resolved (VStars [genesisEntry]).
Proof.
  assert (H1 : In (genesis 1700000000123) (chain Demo.fresh))
    by (vm_compute; left; reflexivity).
  assert (H2 : Block.height (genesis 1700000000123) <= 0)
    by (vm_compute; discriminate).
  assert (H3 : all (chain Demo.fresh) = inr [genesisEntry])
    by (vm_compute; reflexivity).
  repeat (split; [assumption|]).
  exact (proj1 (getStarsByWalletAddress_empty_address_shows_genesis
                  Demo.fresh (genesis 1700000000123) [genesisEntry] H1 H2 H3)).
Defined.

(** C8 (counterexample). On a fresh ledger a lookup by a hash that no block
    has, and a lookup by a height that no block has, both resolve with a
    sentinel string. *)
Lemma lookup_miss_resolves_sentinel_string :
  (forall b, In b (chain Demo.fresh) -> Block.hash b <> Some "abc")
  /\ getBlockByHash Demo.fresh "abc"
     = Resolved (VString "There's no block with this hash")
  /\ (forall b, In b (chain Demo.fresh) -> Block.height b <> 7)
  /\ getBlockByHeight Demo.fresh 7
     = Resolved (VString "No block at this height").
Proof.
  split; [intros b Hb; vm_compute in Hb; destruct Hb as [<-|[]]; discriminate|].
  split; [reflexivity|].
  split; [intros b Hb; vm_compute in Hb; destruct Hb as [<-|[]]; discriminate|].
  reflexivity.
Qed.

Lemma lookup_resolves_block_or_sentinel_string_witness :
  (forall b, In b (chain Demo.oneStar) -> Block.hash b <> Some "abc")
  /\ getBlockByHash Demo.oneStar "abc" = Resolved (VString noBlockWithHash)
  /\ In (genesis 1700000000123) (chain Demo.oneStar)
  /\ Block.height (genesis 1700000000123) = 0
  /\ exists b', getBlockByHeight Demo.oneStar 0 = Resolved (VBlock b')
       /\ Block.height b' = 0.
Proof.
  assert (H1 : forall b, In b (chain Demo.oneStar) -> Block.hash b <> Some "abc").
  { intros b Hb. vm_compute in Hb. destruct Hb as [<-|[<-|[]]]; discriminate. }
  assert (H2 : In (genesis 1700000000123) (chain Demo.oneStar))
    by (vm_compute; left; reflexivity).
  assert (H3 : Block.height (genesis 1700000000123) = 0) by reflexivity.
  destruct (lookup_resolves_block_or_sentinel_string Demo.oneStar)
    as (Hmiss & _ & _ & Hhit).
  split; [exact H1|]. split; [exact (Hmiss "abc" H1)|].
  split; [exact H2|]. split; [exact H3|].
  destruct (Hhit 0 (genesis 1700000000123) H2 H3) as (b' & E & _ & Hh & _ & _).
  exists b'. split; assumption.
Defined.

Lemma reachable_height_is_length_minus_one_witness :
  reachable Demo.oneStar
  /\ height Demo.oneStar = Z.of_nat (List.length (chain Demo.oneStar)) - 1.
Proof.
  assert (H : reachable Demo.oneStar).
  { apply (reachable_after Demo.fresh
             (CallSubmitStar 1700000100456 1700000100999
                "addrA" "addrA:1700000000:starRegistry"
                "sig:addrA:1700000000:starRegistry" Demo.star1)).
    apply reachable_new. }
  split; [exact H|].
  exact (reachable_height_is_length_minus_one Demo.oneStar H).
Defined.

Lemma submitStar_unparsed_time_goes_to_verification_witness :
  messageTime "hello" = None
  /\ submitStar Demo.fresh 1700000100456 1700000100999
       "addrA" "hello" "sig:forged" Demo.star1
     = (Rejected (VString validationFailed), Demo.fresh).
Proof.
  assert (H : messageTime "hello" = None) by reflexivity.
  split; [exact H|].
  exact (proj2 (proj2 (submitStar_unparsed_time_goes_to_verification Demo.fresh
                         1700000100456 1700000100999 "addrA" "hello"
                         "sig:forged" Demo.star1 H))).
Defined.

(** ** The ledger on examples *)

(** The scenario of the specification: a fresh ledger, a challenge, a signed
    submission, then the height and the stars of the owner. *)
Example end_to_end :
  getChainHeight Demo.fresh = Resolved (VNumber 0)
  /\ requestMessageOwnershipVerification "addrA" 1700000000123
     = Resolved (VString "addrA:1700000000:starRegistry")
  /\ fst (submitStar Demo.fresh 1700000100456 1700000100999
            "addrA" "addrA:1700000000:starRegistry"
            "sig:addrA:1700000000:starRegistry" Demo.star1)
     = Resolved (VBlock (Block.mk (Some "43844") 1
                           "addrA|addrA:1700000000:starRegistry|dec=+1,ra=5h,story=test"
                           "1700000100" (Some "59517")))
  /\ getChainHeight Demo.oneStar = Resolved (VNumber 1)
  /\ getStarsByWalletAddress Demo.oneStar "addrA"
     = Resolved (VStars [mkStarEntry (Some "addrA") (Some Demo.star1)]).
Proof. repeat split; vm_compute; reflexivity. Qed.

(** A challenge is fresh for 299 whole seconds and expired at 300. *)
Example freshness_boundary :
  expired 1700000299999 "addrA:1700000000:starRegistry" = false
  /\ expired 1700000300000 "addrA:1700000000:starRegistry" = true.
Proof. split; vm_compute; reflexivity. Qed.

(** A block that names a height beyond the chain: the loop of
    [validateChain] throws and the promise never settles; an append on such
    a ledger stays with its block pushed. *)
Example validateChain_never_settles :
  validateChain Demo.outOfRange = Pending
  /\ _addBlock Demo.outOfRange 1700000000123 Demo.draft
     = (Pending,
        commit Demo.outOfRange
          (Block.mk (Some "58699") 1 "x" "1700000000" (Some "h"))).
Proof. split; vm_compute; reflexivity. Qed.

(** On the tampered ledger every star is turned away, although the new
    block itself is sound. *)
Example tampered_ledger_rejects_appends :
  fst (submitStar Demo.tampered 1700000100456 1700000100999
         "addrA" "addrA:1700000000:starRegistry"
         "sig:addrA:1700000000:starRegistry" Demo.star1)
  = Rejected (VErrorLog [invalidAt Demo.tamperedGenesis]).
Proof. vm_compute; reflexivity. Qed.

(** ** The further properties on the concrete collaborators *)

Lemma oneStar_reachable : reachable Demo.oneStar.
Proof.
  apply (reachable_after Demo.fresh
           (CallSubmitStar 1700000100456 1700000100999
              "addrA" "addrA:1700000000:starRegistry"
              "sig:addrA:1700000000:starRegistry" Demo.star1)).
  apply reachable_new.
Defined.

Lemma oneStar_reachableNew : reachableNew Demo.oneStar.
Proof.
  apply (reachableNew_after Demo.fresh
           (CallSubmitStar 1700000100456 1700000100999
              "addrA" "addrA:1700000000:starRegistry"
              "sig:addrA:1700000000:starRegistry" Demo.star1)).
  - apply reachableNew_new.
  - exact I.
Defined.

Lemma draft_not_in_oneStar : ~ In Demo.draft (chain Demo.oneStar).
Proof.
  intro H. vm_compute in H. destruct H as [H|[H|[]]]; discriminate H.
Defined.

Lemma freshness_test_counts_whole_seconds_witness :
  1000 <= 1700000300999
  /\ currentTime 1700000300999 = Some 1700000300.
Proof.
  assert (H : 1000 <= 1700000300999) by lia.
  split; [exact H|].
  exact (proj1 (freshness_test_counts_whole_seconds 1700000300999 H)).
Defined.

Lemma challenge_round_trip_witness :
  contains ":" "addrA" = false
  /\ 1000 <= 1700000000123
  /\ 1000 <= 1700000299999
  /\ requestMessageOwnershipVerification "addrA" 1700000000123
     = Resolved (VString "addrA:1700000000:starRegistry")
  /\ messageTime "addrA:1700000000:starRegistry" = Some (1700000000123 / 1000).
Proof.
  assert (H1 : contains ":" "addrA" = false) by reflexivity.
  assert (H2 : 1000 <= 1700000000123) by lia.
  assert (H3 : 1000 <= 1700000299999) by lia.
  assert (H4 : requestMessageOwnershipVerification "addrA" 1700000000123
               = Resolved (VString "addrA:1700000000:starRegistry"))
    by (vm_compute; reflexivity).
  repeat (split; [assumption|]).
  exact (proj1 (challenge_round_trip "addrA" "addrA:1700000000:starRegistry"
                  1700000000123 1700000299999 H1 H2 H3 H4)).
Defined.

Lemma challenge_of_address_with_colon_witness :
  contains ":" "a:5" = true
  /\ requestMessageOwnershipVerification "a:5" 1700000000123
     = Resolved (VString "a:5:1700000000:starRegistry")
  /\ messageTime "a:5:1700000000:starRegistry" = messageTime "a:5".
Proof.
  assert (H1 : contains ":" "a:5" = true) by reflexivity.
  assert (H2 : requestMessageOwnershipVerification "a:5" 1700000000123
               = Resolved (VString "a:5:1700000000:starRegistry"))
    by (vm_compute; reflexivity).
  repeat (split; [assumption|]).
  exact (challenge_of_address_with_colon "a:5" "a:5:1700000000:starRegistry"
           1700000000123 H1 H2).
Defined.

Lemma calls_only_append_witness :
  givesNewBlock Demo.oneStar (CallAddBlock 1700000200000 Demo.draft)
  /\ ((chain (after Demo.oneStar (CallAddBlock 1700000200000 Demo.draft))
       = chain Demo.oneStar
       /\ height (after Demo.oneStar (CallAddBlock 1700000200000 Demo.draft))
          = height Demo.oneStar)
      \/ exists b,
           chain (after Demo.oneStar (CallAddBlock 1700000200000 Demo.draft))
           = chain Demo.oneStar ++ [b]
           /\ height (after Demo.oneStar (CallAddBlock 1700000200000 Demo.draft))
              = height Demo.oneStar + 1).
Proof.
  split; [exact draft_not_in_oneStar|].
  exact (calls_only_append Demo.oneStar
           (CallAddBlock 1700000200000 Demo.draft) draft_not_in_oneStar).
Defined.

Lemma reachable_addBlock_all_or_nothing_witness :
  reachableNew Demo.oneStar
  /\ ~ In Demo.draft (chain Demo.oneStar)
  /\ ((exists b,
          _addBlock Demo.oneStar 1700000200000 Demo.draft
          = (Resolved (VBlock b), commit Demo.oneStar b)
          /\ Block.height b = height Demo.oneStar + 1
          /\ Block.time b = JS.timeString 1700000200000
          /\ Block.body b = Block.body Demo.draft)
      \/ (exists errorLog,
             errorLog <> []
             /\ _addBlock Demo.oneStar 1700000200000 Demo.draft
                = (Rejected (VErrorLog errorLog), Demo.oneStar))).
Proof.
  split; [exact oneStar_reachableNew|]. split; [exact draft_not_in_oneStar|].
  exact (reachable_addBlock_all_or_nothing Demo.oneStar 1700000200000
           Demo.draft oneStar_reachableNew draft_not_in_oneStar).
Defined.



Lemma reachable_chain_is_linked_witness :
  reachableNew Demo.oneStar
  /\ heightsArePositions Demo.oneStar
  /\ linked Demo.oneStar.
Proof.
  split; [exact oneStar_reachableNew|].
  destruct (reachable_chain_is_linked Demo.oneStar oneStar_reachableNew)
    as (Hpos & _ & Hlink).
  split; assumption.
Defined.

Lemma reachable_lookup_by_height_witness :
  reachableNew Demo.oneStar
  /\ getChainHeight Demo.oneStar = Resolved (VNumber 1)
  /\ getBlockByHeight Demo.oneStar 2 = Resolved (VString noBlockAtHeight).
Proof.
  assert (H : getChainHeight Demo.oneStar = Resolved (VNumber 1))
    by (vm_compute; reflexivity).
  split; [exact oneStar_reachableNew|]. split; [exact H|].
  apply (proj2 (reachable_lookup_by_height Demo.oneStar 1 oneStar_reachableNew H)).
  right. lia.
Defined.

Lemma resolved_append_becomes_latest_witness :
  _addBlock Demo.fresh 1700000100999 Demo.draft
  = (Resolved (VBlock (Block.mk (Some "3416") 1 "x" "1700000100" (Some "59517"))),
     commit Demo.fresh (Block.mk (Some "3416") 1 "x" "1700000100" (Some "59517")))
  /\ _getLatestBlock
       (commit Demo.fresh (Block.mk (Some "3416") 1 "x" "1700000100" (Some "59517")))
     = Some (Block.mk (Some "3416") 1 "x" "1700000100" (Some "59517")).
Proof.
  assert (H : _addBlock Demo.fresh 1700000100999 Demo.draft
     = (Resolved (VBlock (Block.mk (Some "3416") 1 "x" "1700000100" (Some "59517"))),
        commit Demo.fresh (Block.mk (Some "3416") 1 "x" "1700000100" (Some "59517"))))
    by (vm_compute; reflexivity).
  split; [exact H|].
  exact (proj1 (resolved_append_becomes_latest _ _ _ _ _ H)).
Defined.

Lemma tampered_shape :
  heightMatchesLength Demo.tampered
  /\ heightsInRange Demo.tampered
  /\ ~ consistent Demo.tampered.
Proof.
  split; [reflexivity|]. split.
  - intros b [<-|[]]. unfold inRange. simpl. lia.
  - intro H. destruct (H Demo.tamperedGenesis (or_introl eq_refl)) as [_ Hv].
    vm_compute in Hv. discriminate Hv.
Defined.

Lemma inconsistent_ledger_rejects_every_append_witness :
  heightMatchesLength Demo.tampered
  /\ heightsInRange Demo.tampered
  /\ ~ consistent Demo.tampered
  /\ exists errorLog,
       _addBlock Demo.tampered 1700000000123 Demo.draft
       = (Rejected (VErrorLog errorLog), Demo.tampered).
Proof.
  destruct tampered_shape as (H1 & H2 & H3).
  repeat (split; [assumption|]).
  destruct (inconsistent_ledger_rejects_every_append Demo.tampered
              1700000000123 Demo.draft H1 H2 H3) as (errorLog & E & _).
  now exists errorLog.
Defined.

Lemma changed_hash_breaks_next_link_witness :
  heightsArePositions Demo.oneStar
  /\ nth_error (chain Demo.oneStar) 0 = Some (genesis 1700000000123)
  /\ nth_error (chain Demo.oneStar) 1 = Some Damaged.starBlock
  /\ Some "evil" <> Block.previousBlockHash Damaged.starBlock
  /\ exists errorLog,
       validateChain
         (mkBlockchain (setHashAt 0 (Some "evil") (chain Demo.oneStar))
            (height Demo.oneStar))
       = Resolved (VErrorLog errorLog)
       /\ In (brokenAt Damaged.starBlock) errorLog.
Proof.
  assert (H1 : heightsArePositions Demo.oneStar)
    by (apply reachable_heightsArePositions, oneStar_reachable).
  assert (H2 : nth_error (chain Demo.oneStar) 0 = Some (genesis 1700000000123))
    by (vm_compute; reflexivity).
  assert (H3 : nth_error (chain Demo.oneStar) 1 = Some Damaged.starBlock)
    by (vm_compute; reflexivity).
  assert (H4 : Some "evil" <> Block.previousBlockHash Damaged.starBlock)
    by discriminate.
  repeat (split; [assumption|]).
  destruct (changed_hash_breaks_next_link Demo.oneStar 0 (Some "evil")
              (genesis 1700000000123) Damaged.starBlock H1 H2 H3 H4)
    as (errorLog & E & Hin & _).
  exists errorLog. split; assumption.
Defined.

Lemma genesisInFlight_flight : flight Damaged.genesisInFlight.
Proof.
  exact (flight_commit (mkInFlight (mkBlockchain [] (-1)) []) 1700000000123
           (Block_new (DataString "Genesis Block")) (genesis 1700000000123)
           flight_constructed eq_refl).
Defined.

Lemma interleaved_appends_keep_height_witness :
  flight Damaged.genesisInFlight
  /\ height (ledger Damaged.genesisInFlight)
     = Z.of_nat (List.length (chain (ledger Damaged.genesisInFlight))) - 1.
Proof.
  split; [exact genesisInFlight_flight|].
  exact (proj1 (interleaved_appends_keep_height Damaged.genesisInFlight
                  genesisInFlight_flight)).
Defined.

Lemma stars_of_nonempty_address_skip_genesis_witness :
  "addrA" <> EmptyString
  /\ getStarsByWalletAddress Demo.oneStar "addrA"
     = getStarsByWalletAddress
         (mkBlockchain (filter aboveGenesis (chain Demo.oneStar))
            (height Demo.oneStar)) "addrA".
Proof.
  assert (H : "addrA" <> EmptyString) by discriminate.
  split; [exact H|].
  exact (stars_of_nonempty_address_skip_genesis Demo.oneStar "addrA" H).
Defined.

Lemma undecodable_payload_fails_every_query_witness :
  (exists b e, In b (chain Damaged.undecodable) /\ 0 < Block.height b
     /\ getBData b = inl e)
  /\ exists e, forall address,
       getStarsByWalletAddress Damaged.undecodable address = Rejected (VString e).
Proof.
  assert (H : exists b e, In b (chain Damaged.undecodable) /\ 0 < Block.height b
                /\ getBData b = inl e).
  { exists Damaged.undecodableBlock, "Unexpected token".
    split; [vm_compute; right; left; reflexivity|].
    split; [reflexivity | vm_compute; reflexivity]. }
  split; [exact H|].
  destruct (proj1 (undecodable_payload_fails_every_query Damaged.undecodable) H)
    as (b & e & _ & _ & _ & Hall).
  now exists e.
Defined.

Lemma stars_resolved_are_owned_witness :
  getStarsByWalletAddress Demo.oneStar "addrA"
  = Resolved (VStars [mkStarEntry (Some "addrA") (Some Demo.star1)])
  /\ (VStars [mkStarEntry (Some "addrA") (Some Demo.star1)] = VString ownsNoStars
      \/ exists blocks,
           VStars [mkStarEntry (Some "addrA") (Some Demo.star1)] = VStars blocks
           /\ blocks <> []
           /\ forall entry, In entry blocks -> owner entry = Some "addrA").
Proof.
  assert (H : getStarsByWalletAddress Demo.oneStar "addrA"
              = Resolved (VStars [mkStarEntry (Some "addrA") (Some Demo.star1)]))
    by (vm_compute; reflexivity).
  split; [exact H|].
  exact (stars_resolved_are_owned Demo.oneStar "addrA" _ H).
Defined.

Lemma addBlock_given_stored_block_rewrites_witness :
  heightMatchesLength Demo.oneStar
  /\ nth_error (chain Demo.oneStar) 1 = Some Damaged.starBlock
  /\ exists b,
       nth_error (chain (snd (_addBlock_stored Demo.oneStar 1700000200000 1))) 1
       = Some b
       /\ Block.height b = 2.
Proof.
  assert (H1 : heightMatchesLength Demo.oneStar) by reflexivity.
  assert (H2 : nth_error (chain Demo.oneStar) 1 = Some Damaged.starBlock)
    by (vm_compute; reflexivity).
  split; [exact H1|]. split; [exact H2|].
  destruct (addBlock_given_stored_block_rewrites Demo.oneStar 1700000200000 1
              Damaged.starBlock H1 H2) as (b & Hb & Hh & _).
  exists b. split; [exact Hb | exact Hh].
Defined.
